(** * GitHub follower sync: a shallow embedding of [main.py]

    The development follows the layout of the script: text helpers, the
    GitHub API client, the list and history files, the Telegram report
    and the main reconciliation run.

    Modelling conventions.
    - A Python [str] is a [string]; the case and whitespace operations
      ([str.lower], [str.strip]) are modelled on the ASCII range, which is
      the alphabet of GitHub logins; other bytes are left untouched.
    - The policy files are free text: module [Unicode] models their
      loading over code points, with the full whitespace set of
      [str.isspace] and [str.lower] as a parameter, and agrees with the
      loader over strings on ASCII files.
    - A Python [set] of strings is a [gset string].
    - String literals, decorative symbols included, are the script's own,
      byte for byte.
    - The settings are parameters; the counters and the cap are natural
      numbers, HTTP status codes are integers.
    - Remote calls, the random generator and the clock are explicit
      inputs; what the script does to the outside world is recorded in a
      trace of events. *)

From Stdlib Require Import ZArith QArith.QArith_base Strings.Ascii Strings.String.
From Stdlib Require Import Numbers.DecimalString Lia.
From stdpp Require Import base gmap sets list strings.

Local Open Scope Z_scope.
#[local] Set Warnings "-level-tolerance".

(* ==================== TEXT ==================== *)

Module Text.

(** [str.lower] on one ASCII character: [A]..[Z] go to [a]..[z]. *)
Definition lower_ascii (c : ascii) : ascii :=
  let n := N_of_ascii c in
  if ((65 <=? n) && (n <=? 90))%N then ascii_of_N (n + 32) else c.

(** [s.lower()] *)
Fixpoint lower (s : string) : string :=
  match s with
  | EmptyString => EmptyString
  | String c s' => String (lower_ascii c) (lower s')
  end.

(** [str.isspace] on one ASCII character: TAB, LF, VT, FF, CR, the four
    separators FS, GS, RS, US, and the space. *)
Definition isspace (c : ascii) : bool :=
  let n := N_of_ascii c in
  (((9 <=? n) && (n <=? 13)) || ((28 <=? n) && (n <=? 32)))%N.

(** [s.lstrip()] *)
Fixpoint lstrip (s : string) : string :=
  match s with
  | EmptyString => EmptyString
  | String c s' => if isspace c then lstrip s' else s
  end.

(** [s.rstrip()] *)
Fixpoint rstrip (s : string) : string :=
  match s with
  | EmptyString => EmptyString
  | String c s' =>
      match rstrip s' with
      | EmptyString => if isspace c then EmptyString else String c EmptyString
      | r => String c r
      end
  end.

(** [s.strip()] *)
Definition strip (s : string) : string := rstrip (lstrip s).

(** [s.startswith(p)] *)
Definition startswith (s p : string) : bool := String.prefix p s.

(** Truth value of a string: [bool(s)], false exactly on [""]. *)
Definition truthy (s : string) : bool :=
  match s with
  | EmptyString => false
  | String _ _ => true
  end.

(** Truth value of a list: [bool(l)], false exactly on [[]]. *)
Definition truthy_list {A} (l : list A) : bool :=
  match l with
  | [] => false
  | _ :: _ => true
  end.

(** [str(n)] / the f-string rendering of an integer. *)
Definition str_of_Z (z : Z) : string := NilZero.string_of_int (Z.to_int z).

Definition LF : ascii := ascii_of_N 10.
Definition CR : ascii := ascii_of_N 13.

(** Text-mode reading with the default [newline=None]: the sequences
    CR LF and a lone CR are both delivered as LF. *)
Fixpoint universal_newlines (s : string) : string :=
  match s with
  | EmptyString => EmptyString
  | String c s' =>
      if Ascii.eqb c CR then
        String LF
          match s' with
          | String c' s'' =>
              if Ascii.eqb c' LF then universal_newlines s''
              else universal_newlines s'
          | EmptyString => EmptyString
          end
      else String c (universal_newlines s')
  end.

(** Iterating over the text: each line keeps its terminating LF; the
    last line has none when the text does not end in one. *)
Fixpoint splitlines_keep (s : string) : list string :=
  match s with
  | EmptyString => []
  | String c s' =>
      if Ascii.eqb c LF then String c EmptyString :: splitlines_keep s'
      else match splitlines_keep s' with
           | [] => [String c EmptyString]
           | l :: ls => String c l :: ls
           end
  end.

(** [for line in f] on a file opened in text mode. *)
Definition file_lines (content : string) : list string :=
  splitlines_keep (universal_newlines content).

End Text.

Import Text.

(* ==================== CONFIGURATION ==================== *)

(** The module-level safety settings.  The script assigns them once, at
    import; every definition below takes them as a parameter and
    [source_settings] records the values written in the file. *)
Record Settings := {
  MAX_ACTIONS_PER_RUN : nat;  (* Maximum follow/unfollow actions per run *)
  ACTION_DELAY_MIN : Q;       (* Minimum seconds between actions *)
  ACTION_DELAY_MAX : Q        (* Maximum seconds between actions *)
}.

Definition source_settings : Settings :=
  {| MAX_ACTIONS_PER_RUN := 10;
     ACTION_DELAY_MIN := inject_Z 2;
     ACTION_DELAY_MAX := inject_Z 5 |}.

(** The environment variables read at import.  [os.environ.get] gives
    [None] for an unset variable. *)
Record Environ := {
  GITHUB_TOKEN : option string;
  GITHUB_USERNAME : string;
  TELEGRAM_BOT_TOKEN : option string;
  TELEGRAM_CHAT_ID : option string
}.

(** [not v] for an optional string: unset or empty. *)
Definition unset (v : option string) : bool :=
  match v with
  | None => true
  | Some s => negb (truthy s)
  end.

(* ==================== MAIN LOGIC: analysis ==================== *)

(** [set(f.lower() for f in users)] *)
Definition lower_set (users : list string) : gset string :=
  list_to_set (lower <$> users).

(** The loop that fills [to_follow]: the accumulator is the list built so
    far, each retained user is appended in its original spelling. *)
Fixpoint collect_follow (following_set blacklist : gset string)
    (followers : list string) (to_follow : list string) : list string :=
  match followers with
  | [] => to_follow
  | user :: rest =>
      let user_lower := lower user in
      if bool_decide (user_lower ∉ following_set)
         && bool_decide (user_lower ∉ blacklist)
      then collect_follow following_set blacklist rest (to_follow ++ [user])
      else collect_follow following_set blacklist rest to_follow
  end.

(** The loop that fills [to_unfollow]. *)
Fixpoint collect_unfollow (followers_set whitelist : gset string)
    (following : list string) (to_unfollow : list string) : list string :=
  match following with
  | [] => to_unfollow
  | user :: rest =>
      let user_lower := lower user in
      if bool_decide (user_lower ∉ followers_set)
         && bool_decide (user_lower ∉ whitelist)
      then collect_unfollow followers_set whitelist rest (to_unfollow ++ [user])
      else collect_unfollow followers_set whitelist rest to_unfollow
  end.

(** The analysis step of [sync_followers]: from the two fetched lists and
    the two policy sets to the pair [(to_follow, to_unfollow)]. *)
Definition analyse (followers following : list string)
    (whitelist blacklist : gset string) : list string * list string :=
  let followers_set := lower_set followers in
  let following_set := lower_set following in
  let to_follow := collect_follow following_set blacklist followers [] in
  let to_unfollow := collect_unfollow followers_set whitelist following [] in
  (to_follow, to_unfollow).

Definition to_follow_of (followers following : list string)
    (whitelist blacklist : gset string) : list string :=
  fst (analyse followers following whitelist blacklist).

Definition to_unfollow_of (followers following : list string)
    (whitelist blacklist : gset string) : list string :=
  snd (analyse followers following whitelist blacklist).

(* ==================== THE OUTSIDE WORLD ==================== *)

(** The lines the script prints when something goes wrong or a limit is
    hit.  The informational prints (banner, counters, one line per user)
    carry no decision and are not recorded. *)
Inductive Notice :=
| ApiError (status_code : Z)        (* API Error: <status> - <text> *)
| ReachedMaxActions (limit : nat)   (* Reached max actions limit (<limit>) *)
| TelegramNotConfigured             (* Telegram not configured, skipping notification *)
| TelegramError                     (* Telegram error: <exception> *)
| TokenNotSet.                      (* GITHUB_TOKEN environment variable not set! *)

(** What a run does to the outside world, in order. *)
Inductive Event :=
| HttpGet (url : string) (page per_page : nat)
| HttpPut (url : string) (status_code : Z)
| HttpDelete (url : string) (status_code : Z)
| HttpPost (url chat_id text : string)
| Sleep (seconds : Q)
| Print (notice : Notice).

(** A call either returns or raises. *)
Inductive Outcome (A : Type) :=
| Returned (a : A)
| Raised.
Arguments Returned {A} a.
Arguments Raised {A}.

(* ==================== GITHUB API ==================== *)

Definition GITHUB_API_BASE : string := "https://api.github.com".

(** The body of a list response: a JSON array of user objects, given by
    their [login] fields, or a body on which [response.json()] or
    [user["login"]] raises. *)
Inductive Body :=
| Users (logins : list string)
| Malformed.

Record Response := { status_code : Z; body : Body }.

(** The read side of the remote service: the reply to
    [GET url?page=<page>&per_page=<per_page>]. *)
Definition Server := string → nat → Response.

Definition per_page : nat := 100.

(** The [while True] loop of [get_all_pages], entered with the current
    [page] and the [users] gathered so far.  Each iteration spends one
    unit of [fuel]; [None] means the fuel ran out before the loop ended. *)
Fixpoint get_all_pages_loop (fuel : nat) (server : Server) (url : string)
    (page : nat) (users : list string) (log : list Event)
    : option (Outcome (list string) * list Event) :=
  match fuel with
  | O => None
  | S fuel' =>
      let response := server url page in
      let log := log ++ [HttpGet url page per_page] in
      if negb (status_code response =? 200) then
        Some (Returned users, log ++ [Print (ApiError (status_code response))])
      else
        match body response with
        | Malformed => Some (Raised, log)
        | Users data =>
            match data with
            | [] => Some (Returned users, log)
            | _ :: _ =>
                let users := users ++ data in
                if (length data <? per_page)%nat then Some (Returned users, log)
                else
                  get_all_pages_loop fuel' server url (page + 1) users
                    (log ++ [Sleep (1 # 2)])
            end
        end
  end.

(** [get_all_pages(url)] *)
Definition get_all_pages (fuel : nat) (server : Server) (url : string)
    : option (Outcome (list string) * list Event) :=
  get_all_pages_loop fuel server url 1 [] [].

Definition followers_url (env : Environ) : string :=
  GITHUB_API_BASE +:+ "/users/" +:+ GITHUB_USERNAME env +:+ "/followers".

Definition following_url (env : Environ) : string :=
  GITHUB_API_BASE +:+ "/users/" +:+ GITHUB_USERNAME env +:+ "/following".

(** [get_followers()] *)
Definition get_followers (fuel : nat) (server : Server) (env : Environ) :=
  get_all_pages fuel server (followers_url env).

(** [get_following()] *)
Definition get_following (fuel : nat) (server : Server) (env : Environ) :=
  get_all_pages fuel server (following_url env).

(** The write side of the remote service, with a state [R] of its own:
    the status code of [PUT] and of [DELETE] on [/user/following/<name>],
    and the state after the call. *)
Record Remote (R : Type) := {
  put_following : string → R → Z * R;
  delete_following : string → R → Z * R
}.
Arguments put_following {R} _ _ _.
Arguments delete_following {R} _ _ _.

Definition action_url (username : string) : string :=
  GITHUB_API_BASE +:+ "/user/following/" +:+ username.

(** [follow_user(username)]: the success flag, the remote state after the
    call and the event it leaves. *)
Definition follow_user {R} (remote : Remote R) (username : string) (r : R)
    : bool * R * Event :=
  let '(code, r') := put_following remote username r in
  (code =? 204, r', HttpPut (action_url username) code).

(** [unfollow_user(username)] *)
Definition unfollow_user {R} (remote : Remote R) (username : string) (r : R)
    : bool * R * Event :=
  let '(code, r') := delete_following remote username r in
  (code =? 204, r', HttpDelete (action_url username) code).

(* ==================== FILE OPERATIONS ==================== *)

(** [load_list_file(filepath)]: the file is given by its text, or [None]
    when [filepath.exists()] is false. *)
Definition load_list_file (file : option string) : gset string :=
  match file with
  | None => ∅
  | Some content =>
      list_to_set
        (map (λ line, lower (strip line))
           (List.filter
              (λ line, truthy (strip line) && negb (startswith line "#"))
              (file_lines content)))
  end.

(** One entry of the history: [{"user": ..., "timestamp": ...}]. *)
Record ActionRecord := { user : string; timestamp : string }.

(** The history document: [{"follows": [...], "unfollows": [...],
    "last_run": ...}]. *)
Record History := {
  follows : list ActionRecord;
  unfollows : list ActionRecord;
  last_run : option string
}.

(** [load_history()]: the parsed file, or the fresh document when the file
    does not exist. *)
Definition load_history (file : option History) : History :=
  match file with
  | None => {| follows := []; unfollows := []; last_run := None |}
  | Some history => history
  end.

(** The slice [l[-n:]] for a positive [n]: the last [n] elements, or the
    whole list when it is shorter. *)
Definition last_slice {A} (n : nat) (l : list A) : list A :=
  drop (length l - n) l.

(** [for user in users: entries.append({"user": user, "timestamp": now})] *)
Definition append_records (entries : list ActionRecord) (users : list string)
    (now : string) : list ActionRecord :=
  fold_left (λ entries user, entries ++ [{| user := user; timestamp := now |}])
    users entries.

(** The history update of [sync_followers], up to the document handed to
    [save_history]. *)
Definition update_history (history : History) (followed unfollowed : list string)
    (now : string) : History :=
  let follows1 := append_records (follows history) followed now in
  let unfollows1 := append_records (unfollows history) unfollowed now in
  (* Keep only last 1000 entries *)
  {| follows := last_slice 1000 follows1;
     unfollows := last_slice 1000 unfollows1;
     last_run := Some now |}.

(* ==================== TELEGRAM ==================== *)

(** What [requests.post] does: a response with a status code, or an
    exception. *)
Inductive PostReply :=
| PostStatus (code : Z)
| PostRaises.

(** The notification channel: the reply to a POST of [chat_id] and [text]
    to [url]. *)
Definition Channel := string → string → string → PostReply.

(** [send_telegram_message(message)]: the returned flag and the events. *)
Definition send_telegram_message (env : Environ) (channel : Channel)
    (message : string) : bool * list Event :=
  if unset (TELEGRAM_BOT_TOKEN env) || unset (TELEGRAM_CHAT_ID env) then
    (false, [Print TelegramNotConfigured])
  else
    let token := default "" (TELEGRAM_BOT_TOKEN env) in
    let chat_id := default "" (TELEGRAM_CHAT_ID env) in
    let url := "https://api.telegram.org/bot" +:+ token +:+ "/sendMessage" in
    match channel url chat_id message with
    | PostStatus code => (code =? 200, [HttpPost url chat_id message])
    | PostRaises => (false, [HttpPost url chat_id message; Print TelegramError])
    end.

Module Stats.
Record t := { followers : Z; following : Z }.
End Stats.

Definition NL : string := String LF EmptyString.

(** [str(len(l))] and the like. *)
Definition str_of_nat (n : nat) : string := str_of_Z (Z.of_nat n).

(** [for user in users[:10]: message += f"  <bullet> @{user}\n"] *)
Definition add_users (users : list string) (message : string) : string :=
  fold_left (λ message user, message +:+ "  ‚Ä¢ @" +:+ user +:+ NL)
    (take 10 users) message.

(** [format_telegram_report(followed, unfollowed, stats)], with the value
    [now] of the clock, already formatted. *)
Definition format_telegram_report (now : string)
    (followed unfollowed : list string) (stats : Stats.t) : string :=
  let message := "üîÑ <b>GitHub Follower Sync Report</b>" +:+ NL in
  let message := message +:+ "üìÖ " +:+ now +:+ NL +:+ NL in
  let message := message +:+ "üìä <b>Stats:</b>" +:+ NL in
  let message :=
    message +:+ "  ‚Ä¢ Followers: " +:+ str_of_Z (Stats.followers stats) +:+ NL in
  let message :=
    message +:+ "  ‚Ä¢ Following: " +:+ str_of_Z (Stats.following stats) +:+ NL +:+ NL in
  let message :=
    match followed with
    | [] => message
    | _ :: _ =>
        let message :=
          message +:+ "‚úÖ <b>Followed Back (" +:+ str_of_nat (length followed)
            +:+ "):</b>" +:+ NL in
        let message := add_users followed message in
        let message :=
          if (10 <? length followed)%nat then
            message +:+ "  ... and " +:+ str_of_nat (length followed - 10)
              +:+ " more" +:+ NL
          else message in
        message +:+ NL
    end in
  let message :=
    match unfollowed with
    | [] => message
    | _ :: _ =>
        let message :=
          message +:+ "‚ùå <b>Unfollowed (" +:+ str_of_nat (length unfollowed)
            +:+ "):</b>" +:+ NL in
        let message := add_users unfollowed message in
        let message :=
          if (10 <? length unfollowed)%nat then
            message +:+ "  ... and " +:+ str_of_nat (length unfollowed - 10)
              +:+ " more" +:+ NL
          else message in
        message +:+ NL
    end in
  match followed, unfollowed with
  | [], [] => message +:+ "‚ú® No changes needed - everything is in sync!"
  | _, _ => message
  end.

(* ==================== MAIN LOGIC: actions ==================== *)

(** The random generator: [uniform a b k] is the value of the call
    [random.uniform(a, b)] that comes after [k] earlier draws. *)
Definition Random := Q → Q → nat → Q.

(** The local variables of the action phase, with the state of the remote
    service, the number of random draws made and the events so far. *)
Record Run (R : Type) := {
  remote_state : R;
  draws : nat;
  events : list Event;
  followed : list string;
  unfollowed : list string;
  action_count : nat
}.
Arguments remote_state {R} _.
Arguments draws {R} _.
Arguments events {R} _.
Arguments followed {R} _.
Arguments unfollowed {R} _.
Arguments action_count {R} _.

(** [followed = []; unfollowed = []; action_count = 0] *)
Definition start {R} (r : R) : Run R :=
  {| remote_state := r; draws := 0; events := [];
     followed := []; unfollowed := []; action_count := 0 |}.

Section Actions.
Context {R : Type}.
Variable cfg : Settings.
Variable remote : Remote R.
Variable uniform : Random.

(** [print(...Reached max actions limit...); break] *)
Definition stop_at_limit (st : Run R) : Run R :=
  {| remote_state := remote_state st; draws := draws st;
     events := events st ++ [Print (ReachedMaxActions (MAX_ACTIONS_PER_RUN cfg))];
     followed := followed st; unfollowed := unfollowed st;
     action_count := action_count st |}.

(** [delay = random.uniform(ACTION_DELAY_MIN, ACTION_DELAY_MAX)] *)
Definition next_delay (st : Run R) : Q :=
  uniform (ACTION_DELAY_MIN cfg) (ACTION_DELAY_MAX cfg) (draws st).

(** The [for user in to_follow] loop. *)
Fixpoint follow_loop (to_follow : list string) (st : Run R) : Run R :=
  match to_follow with
  | [] => st
  | user :: rest =>
      if (MAX_ACTIONS_PER_RUN cfg <=? action_count st)%nat then stop_at_limit st
      else
        let delay := next_delay st in
        let '(ok, r', call) := follow_user remote user (remote_state st) in
        follow_loop rest
          {| remote_state := r'; draws := S (draws st);
             events := events st ++ [Sleep delay; call];
             followed := if ok then followed st ++ [user] else followed st;
             unfollowed := unfollowed st;
             action_count :=
               if ok then (action_count st + 1)%nat else action_count st |}
  end.

(** The [for user in to_unfollow] loop. *)
Fixpoint unfollow_loop (to_unfollow : list string) (st : Run R) : Run R :=
  match to_unfollow with
  | [] => st
  | user :: rest =>
      if (MAX_ACTIONS_PER_RUN cfg <=? action_count st)%nat then stop_at_limit st
      else
        let delay := next_delay st in
        let '(ok, r', call) := unfollow_user remote user (remote_state st) in
        unfollow_loop rest
          {| remote_state := r'; draws := S (draws st);
             events := events st ++ [Sleep delay; call];
             followed := followed st;
             unfollowed := if ok then unfollowed st ++ [user] else unfollowed st;
             action_count :=
               if ok then (action_count st + 1)%nat else action_count st |}
  end.

(** The action phase of [sync_followers]: both loops, in the order of the
    script, from the fresh local variables. *)
Definition perform_actions (to_follow to_unfollow : list string) (r : R) : Run R :=
  unfollow_loop to_unfollow (follow_loop to_follow (start r)).

End Actions.

(* ==================== MAIN LOGIC: the run ==================== *)

(** The files under [DATA_DIR] as the run finds them. *)
Record Files := {
  WHITELIST_FILE : option string;
  BLACKLIST_FILE : option string;
  HISTORY_FILE : option History
}.

(** Everything outside the script that a run depends on. *)
Record World (R : Type) := {
  server : Server;
  remote : Remote R;
  remote_start : R;
  uniform : Random;
  channel : Channel;
  files : Files;
  now_isoformat : string;   (* datetime.now().isoformat() at the history update *)
  now_strftime : string     (* datetime.now().strftime(...) in the report *)
}.
Arguments server {R} _.
Arguments remote {R} _.
Arguments remote_start {R} _.
Arguments uniform {R} _.
Arguments channel {R} _.
Arguments files {R} _.
Arguments now_isoformat {R} _.
Arguments now_strftime {R} _.

(** What a completed run leaves behind. *)
Record Summary := {
  sum_followed : list string;
  sum_unfollowed : list string;
  sum_events : list Event;
  sum_saved : option History;   (* the document given to save_history *)
  sum_message : option string;  (* the text given to send_telegram_message *)
  sum_delivered : option bool   (* what send_telegram_message returned *)
}.

(** The final part of [sync_followers]: history, statistics and the
    notification. *)
Definition finish {R} (env : Environ) (w : World R)
    (followers following : list string) (fetch_log : list Event) (st : Run R)
    : Summary :=
  let history := load_history (HISTORY_FILE (files w)) in
  let history :=
    update_history history (followed st) (unfollowed st) (now_isoformat w) in
  let final_followers := Z.of_nat (length followers) in
  let final_following :=
    Z.of_nat (length following) + Z.of_nat (length (followed st))
    - Z.of_nat (length (unfollowed st)) in
  let stats :=
    {| Stats.followers := final_followers; Stats.following := final_following |} in
  if truthy_list (followed st) || truthy_list (unfollowed st) then
    let message :=
      format_telegram_report (now_strftime w) (followed st) (unfollowed st) stats in
    let '(delivered, sent) := send_telegram_message env (channel w) message in
    {| sum_followed := followed st; sum_unfollowed := unfollowed st;
       sum_events := fetch_log ++ events st ++ sent;
       sum_saved := Some history;
       sum_message := Some message; sum_delivered := Some delivered |}
  else
    {| sum_followed := followed st; sum_unfollowed := unfollowed st;
       sum_events := fetch_log ++ events st;
       sum_saved := Some history;
       sum_message := None; sum_delivered := None |}.

(** [sync_followers()].  [None]: a fetch did not end within [fuel] pages;
    [Some Raised]: a fetch raised; otherwise the summary of the run. *)
Definition sync_followers {R} (fuel : nat) (cfg : Settings) (env : Environ)
    (w : World R) : option (Outcome Summary) :=
  if unset (GITHUB_TOKEN env) then
    Some (Returned
            {| sum_followed := []; sum_unfollowed := [];
               sum_events := [Print TokenNotSet];
               sum_saved := None; sum_message := None; sum_delivered := None |})
  else
    let whitelist := load_list_file (WHITELIST_FILE (files w)) in
    let blacklist := load_list_file (BLACKLIST_FILE (files w)) in
    match get_followers fuel (server w) env with
    | None => None
    | Some (Raised, _) => Some Raised
    | Some (Returned followers, log1) =>
        match get_following fuel (server w) env with
        | None => None
        | Some (Raised, _) => Some Raised
        | Some (Returned following, log2) =>
            let '(to_follow, to_unfollow) :=
              analyse followers following whitelist blacklist in
            let st :=
              perform_actions cfg (remote w) (uniform w) to_follow to_unfollow
                (remote_start w) in
            Some (Returned (finish env w followers following (log1 ++ log2) st))
        end
    end.

(* ==================== OBSERVING A TRACE ==================== *)

(** A follow attempt: one [PUT] on the remote service. *)
Definition is_follow_attempt (e : Event) : bool :=
  match e with
  | HttpPut _ _ => true
  | _ => false
  end.

(** An unfollow attempt: one [DELETE] on the remote service. *)
Definition is_unfollow_attempt (e : Event) : bool :=
  match e with
  | HttpDelete _ _ => true
  | _ => false
  end.

(** An attempt that the script takes as realized: status 204. *)
Definition is_realized (e : Event) : bool :=
  match e with
  | HttpPut _ code | HttpDelete _ code => code =? 204
  | _ => false
  end.

Definition is_sleep (e : Event) : bool :=
  match e with
  | Sleep _ => true
  | _ => false
  end.

Definition is_post (e : Event) : bool :=
  match e with
  | HttpPost _ _ _ => true
  | _ => false
  end.

Definition follow_attempts (t : list Event) : nat :=
  length (List.filter is_follow_attempt t).

Definition unfollow_attempts (t : list Event) : nat :=
  length (List.filter is_unfollow_attempt t).

Definition realized (t : list Event) : nat :=
  length (List.filter is_realized t).

(** The trace without its pauses. *)
Definition without_sleeps (t : list Event) : list Event :=
  List.filter (λ e, negb (is_sleep e)) t.

(** The pauses of a trace, in order. *)
Fixpoint sleeps (t : list Event) : list Q :=
  match t with
  | [] => []
  | Sleep d :: t' => d :: sleeps t'
  | _ :: t' => sleeps t'
  end.

(** The pages requested from [url], in order. *)
Fixpoint pages_requested (t : list Event) : list nat :=
  match t with
  | [] => []
  | HttpGet _ page _ :: t' => page :: pages_requested t'
  | _ :: t' => pages_requested t'
  end.

(** A remote service that answers each identifier with a fixed status,
    whatever happened before. *)
Definition fixed_remote (follow_status unfollow_status : string → Z) : Remote unit :=
  {| put_following := λ username _, (follow_status username, tt);
     delete_following := λ username _, (unfollow_status username, tt) |}.

(** The settings of the script with another cap. *)
Definition with_cap (cap : nat) (cfg : Settings) : Settings :=
  {| MAX_ACTIONS_PER_RUN := cap;
     ACTION_DELAY_MIN := ACTION_DELAY_MIN cfg;
     ACTION_DELAY_MAX := ACTION_DELAY_MAX cfg |}.

(** The loop invariant of the action phase: the counter equals the number
    of realized actions, both as list lengths and as 204 replies in the
    trace, and stays within the cap. *)
Definition counted {R} (cfg : Settings) (st : Run R) : Prop :=
  action_count st = (length (followed st) + length (unfollowed st))%nat
  ∧ (action_count st ≤ MAX_ACTIONS_PER_RUN cfg)%nat
  ∧ action_count st = realized (events st).

(** Two states of the action phase that differ at most in the pauses
    recorded in their traces. *)
Definition same_but_pauses {R} (st1 st2 : Run R) : Prop :=
  remote_state st1 = remote_state st2
  ∧ draws st1 = draws st2
  ∧ followed st1 = followed st2
  ∧ unfollowed st1 = unfollowed st2
  ∧ action_count st1 = action_count st2
  ∧ without_sleeps (events st1) = without_sleeps (events st2).

(** The pauses of a state's trace are the draws made so far, in order. *)
Definition paced_by {R} (cfg : Settings) (uniform : Random) (st : Run R) : Prop :=
  sleeps (events st)
  = uniform (ACTION_DELAY_MIN cfg) (ACTION_DELAY_MAX cfg) <$> seq 0 (draws st).

(** The notification channel is configured when both variables are set
    and not empty. *)
Definition telegram_configured (env : Environ) : bool :=
  negb (unset (TELEGRAM_BOT_TOKEN env) || unset (TELEGRAM_CHAT_ID env)).

(* ==================== THE REPORT, PART BY PART ==================== *)

(** The parts of the report as its description names them, to compare
    with the text that [format_telegram_report] accumulates. *)

(** Concatenation of a list of strings. *)
Fixpoint join (parts : list string) : string :=
  match parts with
  | [] => ""
  | part :: rest => part +:+ join rest
  end.

(** Title, timestamp and the statistics block. *)
Definition report_header (now : string) (stats : Stats.t) : string :=
  join ["üîÑ <b>GitHub Follower Sync Report</b>"; NL;
        "üìÖ "; now; NL; NL;
        "üìä <b>Stats:</b>"; NL;
        "  ‚Ä¢ Followers: "; str_of_Z (Stats.followers stats); NL;
        "  ‚Ä¢ Following: "; str_of_Z (Stats.following stats); NL; NL].

(** The line of one listed identifier. *)
Definition user_line (user : string) : string :=
  join ["  ‚Ä¢ @"; user; NL].

(** The line that stands for the [n] identifiers not listed. *)
Definition more_line (n : nat) : string :=
  join ["  ... and "; str_of_nat n; " more"; NL].

(** The identifiers a section lists: at most the first ten. *)
Definition listed (users : list string) : list string := take 10 users.

(** One section: nothing for an empty list; otherwise the title with the
    count, the listed identifiers, the more-line when some are left out,
    and an empty line. *)
Definition report_section (title : string) (users : list string) : string :=
  match users with
  | [] => ""
  | _ :: _ =>
      join [title; str_of_nat (length users); "):</b>"; NL;
            join (user_line <$> listed users);
            if (10 <? length users)%nat
            then more_line (length users - length (listed users)) else "";
            NL]
  end.

Definition followed_title : string := "‚úÖ <b>Followed Back (".
Definition unfollowed_title : string := "‚ùå <b>Unfollowed (".
Definition no_changes_line : string := "‚ú® No changes needed - everything is in sync!".

(** A string that does not begin with a space, as [lstrip] returns it. *)
Definition no_leading_space (s : string) : Prop :=
  match s with
  | EmptyString => True
  | String c _ => isspace c = false
  end.

(* ==================== SAMPLE INPUTS ==================== *)

(** One full page of a hundred logins, then a server error with a body
    that is not JSON. *)
Definition sample_failing_server : Server :=
  λ _ page,
    if (page =? 1)%nat then {| status_code := 200; body := Users (replicate 100 "x") |}
    else {| status_code := 500; body := Malformed |}.

Definition sample_env : Environ :=
  {| GITHUB_TOKEN := Some "token";
     GITHUB_USERNAME := "me";
     TELEGRAM_BOT_TOKEN := None;
     TELEGRAM_CHAT_ID := None |}.

(** One follower, [alice], nobody followed; every call succeeds. *)
Definition sample_world : World unit :=
  {| server := λ url _,
       if String.eqb url (followers_url sample_env)
       then {| status_code := 200; body := Users ["alice"] |}
       else {| status_code := 200; body := Users [] |};
     remote := fixed_remote (λ _, 204) (λ _, 204);
     remote_start := tt;
     uniform := λ a _ _, a;
     channel := λ _ _ _, PostStatus 200;
     files := {| WHITELIST_FILE := None; BLACKLIST_FILE := None; HISTORY_FILE := None |};
     now_isoformat := "2024-01-01T00:00:00";
     now_strftime := "2024-01-01 00:00:00" |}.

(* ==================== FURTHER OBSERVATIONS ==================== *)

(** The addresses of the [PUT] calls of a trace, in order. *)
Fixpoint put_urls (t : list Event) : list string :=
  match t with
  | [] => []
  | HttpPut url _ :: t' => url :: put_urls t'
  | _ :: t' => put_urls t'
  end.

(** The addresses of the [DELETE] calls of a trace, in order. *)
Fixpoint delete_urls (t : list Event) : list string :=
  match t with
  | [] => []
  | HttpDelete url _ :: t' => url :: delete_urls t'
  | _ :: t' => delete_urls t'
  end.

(** The limit notices of a trace. *)
Definition is_limit_notice (e : Event) : bool :=
  match e with
  | Print (ReachedMaxActions _) => true
  | _ => false
  end.

(** A trace of the action phase in which every call comes right after a
    pause of its own: [rested] tells that the previous event was a pause
    that no call has used yet. *)
Fixpoint paced_go (rested : bool) (t : list Event) : bool :=
  match t with
  | [] => negb rested
  | Sleep _ :: t' => negb rested && paced_go true t'
  | HttpPut _ _ :: t' | HttpDelete _ _ :: t' => rested && paced_go false t'
  | Print _ :: t' => negb rested && paced_go false t'
  | _ :: _ => false
  end.

Definition paced (t : list Event) : bool := paced_go false t.

(** A remote service on which every follow and unfollow succeeds. *)
Definition always_accepts {R} (remote : Remote R) : Prop :=
  (∀ u r, (put_following remote u r).1 = 204)
  ∧ (∀ u r, (delete_following remote u r).1 = 204).

(** A remote service on which every follow and unfollow fails. *)
Definition always_refuses {R} (remote : Remote R) : Prop :=
  (∀ u r, (put_following remote u r).1 ≠ 204)
  ∧ (∀ u r, (delete_following remote u r).1 ≠ 204).

(** The [stats] dictionary that [sync_followers] hands to the report. *)
Definition final_stats {R} (followers following : list string) (st : Run R)
    : Stats.t :=
  {| Stats.followers := Z.of_nat (length followers);
     Stats.following :=
       Z.of_nat (length following) + Z.of_nat (length (followed st))
       - Z.of_nat (length (unfollowed st)) |}.

(** The text of a policy file made of the given lines, one per line. *)
Definition sample_policy_file : string :=
  "# protected" +:+ NL +:+ "  Alice " +:+ NL +:+ NL +:+ "BOB" +:+ NL.

(** What the run leaves when it stops at the missing token. *)
Definition stopped_at_token : Summary :=
  {| sum_followed := []; sum_unfollowed := [];
     sum_events := [Print TokenNotSet];
     sum_saved := None; sum_message := None; sum_delivered := None |}.

(** The record that the history keeps of one action of a run. *)
Definition stamped (now : string) (u : string) : ActionRecord :=
  {| user := u; timestamp := now |}.

(** A world whose followers list answers with a body that is not JSON. *)
Definition sample_unreadable_world : World unit :=
  {| server := λ _ _, {| status_code := 200; body := Malformed |};
     remote := fixed_remote (λ _, 204) (λ _, 204);
     remote_start := tt;
     uniform := λ a _ _, a;
     channel := λ _ _ _, PostStatus 200;
     files := {| WHITELIST_FILE := None; BLACKLIST_FILE := None; HISTORY_FILE := None |};
     now_isoformat := "2024-01-01T00:00:00";
     now_strftime := "2024-01-01 00:00:00" |}.

(** A world in which the followers list fails on its first page while two
    accounts are followed. *)
Definition sample_outage_world : World unit :=
  {| server := λ url _,
       if String.eqb url (followers_url sample_env)
       then {| status_code := 502; body := Malformed |}
       else {| status_code := 200; body := Users ["alice"; "bob"] |};
     remote := fixed_remote (λ _, 204) (λ _, 204);
     remote_start := tt;
     uniform := λ a _ _, a;
     channel := λ _ _ _, PostStatus 200;
     files := {| WHITELIST_FILE := None; BLACKLIST_FILE := None; HISTORY_FILE := None |};
     now_isoformat := "2024-01-01T00:00:00";
     now_strftime := "2024-01-01 00:00:00" |}.

(** A world in which the account is in sync: [alice] follows and is
    followed, under two spellings. *)
Definition sample_synced_world : World unit :=
  {| server := λ url _,
       if String.eqb url (followers_url sample_env)
       then {| status_code := 200; body := Users ["Alice"] |}
       else {| status_code := 200; body := Users ["alice"] |};
     remote := fixed_remote (λ _, 204) (λ _, 204);
     remote_start := tt;
     uniform := λ a _ _, a;
     channel := λ _ _ _, PostStatus 200;
     files := {| WHITELIST_FILE := None; BLACKLIST_FILE := None; HISTORY_FILE := None |};
     now_isoformat := "2024-01-01T00:00:00";
     now_strftime := "2024-01-01 00:00:00" |}.

(** The requests of a fetch that asks for [n + 1] pages from [page] on:
    one [GET] per page, with a pause of half a second after each but the
    last. *)
Fixpoint request_run (url : string) (page n : nat) : list Event :=
  match n with
  | O => [HttpGet url page per_page]
  | S n' =>
      HttpGet url page per_page :: Sleep (1 # 2) :: request_run url (S page) n'
  end.

(** The event with which every call of [send_telegram_message] begins:
    its warning when the channel is not configured, its post otherwise.
    Nothing else in the script leaves such an event. *)
Definition is_send_entry (e : Event) : bool :=
  match e with
  | HttpPost _ _ _ => true
  | Print TelegramNotConfigured => true
  | _ => false
  end.

(** The number of calls of [send_telegram_message] that a trace shows. *)
Definition send_entries (t : list Event) : nat :=
  length (List.filter is_send_entry t).

(** The address the send posts to. *)
Definition telegram_url (env : Environ) : string :=
  "https://api.telegram.org/bot" +:+ default "" (TELEGRAM_BOT_TOKEN env)
    +:+ "/sendMessage".

(** The sample environment with the notification channel configured. *)
Definition sample_env_telegram : Environ :=
  {| GITHUB_TOKEN := Some "token";
     GITHUB_USERNAME := "me";
     TELEGRAM_BOT_TOKEN := Some "bot";
     TELEGRAM_CHAT_ID := Some "42" |}.

(* ==================== TEXT AS CODE POINTS ==================== *)

(** The policy files are free text.  For them a Python [str] is modelled
    as what it is, the list of its code points, with the whitespace set of
    [str.isspace] written out in full.  The case table behind [str.lower]
    is not written out: [load_list_file] takes the lower-casing function
    as a parameter, and [lower_ascii] is that function on ASCII text. *)
Module Unicode.

Definition LF : N := 10.
Definition CR : N := 13.
Definition NUMBER_SIGN : N := 35.

(** [c.isspace()]: the characters of bidirectional class WS, B or S and of
    category Zs, that is U+0009 to U+000D, U+001C to U+0020, U+0085,
    U+00A0, U+1680, U+2000 to U+200A, U+2028, U+2029, U+202F, U+205F and
    U+3000. *)
Definition isspace (c : N) : bool :=
  (((9 <=? c) && (c <=? 13)) || ((28 <=? c) && (c <=? 32))
   || (c =? 133) || (c =? 160) || (c =? 5760)
   || ((8192 <=? c) && (c <=? 8202))
   || (c =? 8232) || (c =? 8233) || (c =? 8239) || (c =? 8287)
   || (c =? 12288))%N.

(** [s.lstrip()] *)
Fixpoint lstrip (s : list N) : list N :=
  match s with
  | [] => []
  | c :: s' => if isspace c then lstrip s' else s
  end.

(** [s.rstrip()] *)
Fixpoint rstrip (s : list N) : list N :=
  match s with
  | [] => []
  | c :: s' =>
      match rstrip s' with
      | [] => if isspace c then [] else [c]
      | r => c :: r
      end
  end.

(** [s.strip()] *)
Definition strip (s : list N) : list N := rstrip (lstrip s).

(** [s.startswith(p)] *)
Fixpoint startswith (s p : list N) {struct p} : bool :=
  match p, s with
  | [], _ => true
  | _ :: _, [] => false
  | c :: p', d :: s' => (c =? d)%N && startswith s' p'
  end.

(** Truth value of a string. *)
Definition truthy (s : list N) : bool :=
  match s with
  | [] => false
  | _ :: _ => true
  end.

(** The newline translation of text-mode reading: a CR becomes LF, and an
    LF that comes right after a CR is dropped; [after_cr] tells that the
    previous character was a CR. *)
Fixpoint translate_newlines (after_cr : bool) (s : list N) : list N :=
  match s with
  | [] => []
  | c :: s' =>
      if (c =? CR)%N then LF :: translate_newlines true s'
      else if (c =? LF)%N && after_cr then translate_newlines false s'
      else c :: translate_newlines false s'
  end.

Definition universal_newlines (s : list N) : list N :=
  translate_newlines false s.

(** Iterating over the text: each line keeps its terminating LF. *)
Fixpoint splitlines_keep (s : list N) : list (list N) :=
  match s with
  | [] => []
  | c :: s' =>
      if (c =? LF)%N then [c] :: splitlines_keep s'
      else match splitlines_keep s' with
           | [] => [[c]]
           | l :: ls => (c :: l) :: ls
           end
  end.

(** [for line in f] *)
Definition file_lines (content : list N) : list (list N) :=
  splitlines_keep (universal_newlines content).

(** The test of the generator in [load_list_file]:
    [line.strip() and not line.startswith("#")]. *)
Definition kept (line : list N) : bool :=
  truthy (strip line) && negb (startswith line [NUMBER_SIGN]).

(** [load_list_file(filepath)], with [str.lower] as [str_lower]. *)
Definition load_list_file (str_lower : list N → list N) (file : option (list N))
    : gset (list N) :=
  match file with
  | None => ∅
  | Some content =>
      list_to_set
        (map (λ line, str_lower (strip line))
           (List.filter kept (file_lines content)))
  end.

(** [str.lower] on ASCII text. *)
Definition lower_ascii (s : list N) : list N :=
  map (λ c, if ((65 <=? c) && (c <=? 90))%N then (c + 32)%N else c) s.

(** The code points of a string of ASCII characters. *)
Definition of_string (s : string) : list N :=
  map N_of_ascii (list_ascii_of_string s).

(** A line is not empty and holds an LF at its end only. *)
Definition is_line (line : list N) : Prop :=
  line ≠ [] ∧ ∀ pre post, line = pre ++ LF :: post → post = [].

(** A policy file with blanks of several kinds, a no-break space among
    them, a comment, an empty line, an indented marker and the three
    kinds of line ends. *)
Definition sample_text : list N :=
  of_string "  Alice" ++ [160; 13; 10]%N
  ++ of_string "# note" ++ [10]%N
  ++ [10]%N
  ++ [8195; 9]%N ++ of_string "BOB" ++ [12288; 13]%N
  ++ of_string "  #carol".

End Unicode.

(** A string of ASCII characters only. *)
Definition is_ascii (s : string) : Prop :=
  Forall (λ c, (N_of_ascii c < 128)%N) (list_ascii_of_string s).

(** What follows a CR in the newline translation of strings: an LF right
    after it is dropped. *)
Definition after_CR (s : string) : string :=
  match s with
  | EmptyString => EmptyString
  | String c s' =>
      if Ascii.eqb c Text.LF then universal_newlines s'
      else universal_newlines s
  end.

(* ==================== PROPERTIES: analysis ==================== *)

Section Analysis.
Implicit Types (followers following acc : list string).
Implicit Types (whitelist blacklist : gset string).

Lemma elem_of_lower_set (x : string) (users : list string) :
  x ∈ lower_set users ↔ x ∈ (lower <$> users).
Proof. unfold lower_set. apply elem_of_list_to_set. Qed.

(** The follow loop is a filter onto the end of its accumulator. *)
Lemma collect_follow_filter (S B : gset string) followers acc :
  collect_follow S B followers acc
  = acc ++ filter (λ u, lower u ∉ S ∧ lower u ∉ B) followers.
Proof.
  revert acc. induction followers as [|u rest IH]; intros acc; simpl.
  - by rewrite app_nil_r.
  - rewrite filter_cons.
    destruct (decide (lower u ∉ S ∧ lower u ∉ B)) as [[HS HB]|Hno].
    + rewrite !bool_decide_eq_true_2 by done. simpl.
      rewrite IH. by rewrite <- app_assoc.
    + destruct (bool_decide (lower u ∉ S)) eqn:E1;
        destruct (bool_decide (lower u ∉ B)) eqn:E2; simpl; try apply IH.
      apply bool_decide_eq_true in E1. apply bool_decide_eq_true in E2.
      by destruct Hno.
Qed.

Lemma collect_unfollow_filter (S W : gset string) following acc :
  collect_unfollow S W following acc
  = acc ++ filter (λ u, lower u ∉ S ∧ lower u ∉ W) following.
Proof.
  revert acc. induction following as [|u rest IH]; intros acc; simpl.
  - by rewrite app_nil_r.
  - rewrite filter_cons.
    destruct (decide (lower u ∉ S ∧ lower u ∉ W)) as [[HS HW]|Hno].
    + rewrite !bool_decide_eq_true_2 by done. simpl.
      rewrite IH. by rewrite <- app_assoc.
    + destruct (bool_decide (lower u ∉ S)) eqn:E1;
        destruct (bool_decide (lower u ∉ W)) eqn:E2; simpl; try apply IH.
      apply bool_decide_eq_true in E1. apply bool_decide_eq_true in E2.
      by destruct Hno.
Qed.

Lemma to_follow_filter followers following whitelist blacklist :
  to_follow_of followers following whitelist blacklist
  = filter (λ u, lower u ∉ (lower <$> following) ∧ lower u ∉ blacklist) followers.
Proof.
  unfold to_follow_of, analyse. simpl. rewrite collect_follow_filter. simpl.
  apply list_filter_iff. intros u. by rewrite elem_of_lower_set.
Qed.

Lemma to_unfollow_filter followers following whitelist blacklist :
  to_unfollow_of followers following whitelist blacklist
  = filter (λ u, lower u ∉ (lower <$> followers) ∧ lower u ∉ whitelist) following.
Proof.
  unfold to_unfollow_of, analyse. simpl. rewrite collect_unfollow_filter. simpl.
  apply list_filter_iff. intros u. by rewrite elem_of_lower_set.
Qed.

(** C3.  [to_follow] is exactly the followers, in their original order and
    spelling, whose lower-cased form is neither among the lower-cased
    following nor in the blacklist; [to_unfollow] is exactly the following,
    in their original order, whose lower-cased form is neither among the
    lower-cased followers nor in the whitelist.  Consequently, when a
    follower [u] and a followed account [v] are the same identifier up to
    case, no spelling [w] of that identifier is in [to_follow] or in
    [to_unfollow]. *)
Theorem analyse_case_insensitive followers following whitelist blacklist :
  to_follow_of followers following whitelist blacklist
  = filter (λ u, lower u ∉ (lower <$> following) ∧ lower u ∉ blacklist) followers
  ∧ to_unfollow_of followers following whitelist blacklist
    = filter (λ u, lower u ∉ (lower <$> followers) ∧ lower u ∉ whitelist) following
  ∧ ∀ u v w : string,
      u ∈ followers → v ∈ following → lower u = lower v → lower w = lower u →
      w ∉ to_follow_of followers following whitelist blacklist
      ∧ w ∉ to_unfollow_of followers following whitelist blacklist.
Proof.
  split; [apply to_follow_filter|]. split; [apply to_unfollow_filter|].
  intros u v w Hu Hv Huv Hw.
  rewrite to_follow_filter, to_unfollow_filter. split.
  - intros [[Hnot _] _]%list_elem_of_filter. apply Hnot.
    rewrite Hw, Huv. by apply list_elem_of_fmap_2.
  - intros [[Hnot _] _]%list_elem_of_filter. apply Hnot.
    rewrite Hw. by apply list_elem_of_fmap_2.
Qed.

Lemma analyse_case_insensitive_witness :
  "foo" ∉ to_follow_of ["foo"] ["Foo"] ∅ ∅
  ∧ "foo" ∉ to_unfollow_of ["foo"] ["Foo"] ∅ ∅.
Proof.
  destruct (analyse_case_insensitive ["foo"] ["Foo"] ∅ ∅) as (_ & _ & H).
  apply (H "foo" "Foo" "foo").
  - apply list_elem_of_singleton. reflexivity.
  - apply list_elem_of_singleton. reflexivity.
  - reflexivity.
  - reflexivity.
Defined.

(** C10.  The whitelist has no effect on [to_follow] and the blacklist has
    no effect on [to_unfollow].  So a follower who is not followed back and
    not blacklisted is in [to_follow] also when whitelisted, and a followed
    account that does not follow and is not whitelisted is in [to_unfollow]
    also when blacklisted. *)
Theorem policy_lists_independent followers following :
  (∀ whitelist whitelist' blacklist,
      to_follow_of followers following whitelist blacklist
      = to_follow_of followers following whitelist' blacklist)
  ∧ (∀ whitelist blacklist blacklist',
      to_unfollow_of followers following whitelist blacklist
      = to_unfollow_of followers following whitelist blacklist')
  ∧ (∀ whitelist blacklist u,
      u ∈ followers → lower u ∈ whitelist →
      lower u ∉ (lower <$> following) → lower u ∉ blacklist →
      u ∈ to_follow_of followers following whitelist blacklist)
  ∧ (∀ whitelist blacklist u,
      u ∈ following → lower u ∈ blacklist →
      lower u ∉ (lower <$> followers) → lower u ∉ whitelist →
      u ∈ to_unfollow_of followers following whitelist blacklist).
Proof.
  split; [|split; [|split]].
  - intros. by rewrite !to_follow_filter.
  - intros. by rewrite !to_unfollow_filter.
  - intros whitelist blacklist u Hu _ Hf Hb.
    rewrite to_follow_filter. by apply list_elem_of_filter.
  - intros whitelist blacklist u Hu _ Hf Hw.
    rewrite to_unfollow_filter. by apply list_elem_of_filter.
Qed.

Lemma policy_lists_independent_witness :
  "alice" ∈ to_follow_of ["alice"] ["bob"] {["alice"]} ∅
  ∧ "bob" ∈ to_unfollow_of ["alice"] ["bob"] ∅ {["bob"]}.
Proof.
  destruct (policy_lists_independent ["alice"] ["bob"]) as (_ & _ & Hf & Hu).
  split.
  - apply Hf.
    + apply list_elem_of_singleton. reflexivity.
    + apply elem_of_singleton. reflexivity.
    + vm_compute. intros H. by apply list_elem_of_singleton in H.
    + apply not_elem_of_empty.
  - apply Hu.
    + apply list_elem_of_singleton. reflexivity.
    + apply elem_of_singleton. reflexivity.
    + vm_compute. intros H. by apply list_elem_of_singleton in H.
    + apply not_elem_of_empty.
Defined.

End Analysis.

(* ==================== PROPERTIES: actions ==================== *)

Section ActionProperties.
Context {R : Type}.
Variable cfg : Settings.
Variable remote : Remote R.
Variable uniform : Random.

Local Abbreviation cap := (MAX_ACTIONS_PER_RUN cfg).
Local Abbreviation follow_loop := (follow_loop cfg remote uniform).
Local Abbreviation unfollow_loop := (unfollow_loop cfg remote uniform).
Implicit Types (st : Run R) (r : R) (t : list Event).

Lemma realized_app t1 t2 : realized (t1 ++ t2) = (realized t1 + realized t2)%nat.
Proof. unfold realized. by rewrite List.filter_app, length_app. Qed.

Lemma follow_attempts_app t1 t2 :
  follow_attempts (t1 ++ t2) = (follow_attempts t1 + follow_attempts t2)%nat.
Proof. unfold follow_attempts. by rewrite List.filter_app, length_app. Qed.

Lemma unfollow_attempts_app t1 t2 :
  unfollow_attempts (t1 ++ t2) = (unfollow_attempts t1 + unfollow_attempts t2)%nat.
Proof. unfold unfollow_attempts. by rewrite List.filter_app, length_app. Qed.

Lemma counted_start r : counted cfg (start r).
Proof. unfold counted, start; simpl. repeat split; lia. Qed.

Lemma counted_stop st : counted cfg st → counted cfg (stop_at_limit cfg st).
Proof.
  unfold counted, stop_at_limit; simpl. intros (H1 & H2 & H3).
  rewrite realized_app. change (realized [Print _]) with 0%nat.
  repeat split; lia.
Qed.

(** What the follow loop leaves of a state: the unfollowed list is kept,
    the trace grows by events that are not unfollow attempts, and the
    counter invariant is kept. *)
Lemma follow_loop_spec to_follow st :
  counted cfg st →
  let st' := follow_loop to_follow st in
  counted cfg st'
  ∧ unfollowed st' = unfollowed st
  ∧ ∃ t, events st' = events st ++ t
         ∧ unfollow_attempts t = 0%nat
         ∧ (follow_attempts t ≤ length to_follow)%nat.
Proof.
  revert st. induction to_follow as [|user rest IH]; intros st Hst; simpl.
  - repeat split; try apply Hst. exists []. rewrite app_nil_r. by repeat split.
  - destruct (Nat.leb_spec cap (action_count st)) as [Hfull|Hroom].
    + split; [by apply counted_stop|]. split; [done|].
      eexists. split; [reflexivity|]. split; [reflexivity|].
      unfold follow_attempts, unfollow_attempts. simpl. lia.
    + unfold follow_user.
      destruct (put_following remote user (remote_state st)) as [code r'] eqn:Hput.
      match goal with |- context [follow_loop rest ?s] => set (st1 := s) end.
      assert (Hst1 : counted cfg st1).
      { destruct Hst as (H1 & H2 & H3). unfold counted, st1; simpl.
        rewrite realized_app. unfold realized at 2. simpl.
        destruct (code =? 204); simpl; rewrite ?length_app; simpl;
          repeat split; lia. }
      destruct (IH st1 Hst1) as (Hc & Hu & t & Ht & Hno & Hle).
      split; [exact Hc|]. split; [by rewrite Hu|].
      exists ([Sleep (next_delay cfg uniform st); HttpPut (action_url user) code] ++ t).
      rewrite Ht. unfold st1 at 1; simpl. rewrite <- app_assoc. simpl.
      split; [reflexivity|]. split.
      * unfold unfollow_attempts in *. simpl. exact Hno.
      * unfold follow_attempts in *. simpl. lia.
Qed.

(** The same for the unfollow loop, which keeps the followed list and adds
    no follow attempt. *)
Lemma unfollow_loop_spec to_unfollow st :
  counted cfg st →
  let st' := unfollow_loop to_unfollow st in
  counted cfg st'
  ∧ followed st' = followed st
  ∧ ∃ t, events st' = events st ++ t
         ∧ follow_attempts t = 0%nat
         ∧ (unfollow_attempts t ≤ length to_unfollow)%nat.
Proof.
  revert st. induction to_unfollow as [|user rest IH]; intros st Hst; simpl.
  - repeat split; try apply Hst. exists []. rewrite app_nil_r. by repeat split.
  - destruct (Nat.leb_spec cap (action_count st)) as [Hfull|Hroom].
    + split; [by apply counted_stop|]. split; [done|].
      eexists. split; [reflexivity|]. split; [reflexivity|].
      unfold follow_attempts, unfollow_attempts. simpl. lia.
    + unfold unfollow_user.
      destruct (delete_following remote user (remote_state st)) as [code r'] eqn:Hdel.
      match goal with |- context [unfollow_loop rest ?s] => set (st1 := s) end.
      assert (Hst1 : counted cfg st1).
      { destruct Hst as (H1 & H2 & H3). unfold counted, st1; simpl.
        rewrite realized_app. unfold realized at 2. simpl.
        destruct (code =? 204); simpl; rewrite ?length_app; simpl;
          repeat split; lia. }
      destruct (IH st1 Hst1) as (Hc & Hf & t & Ht & Hno & Hle).
      split; [exact Hc|]. split; [by rewrite Hf|].
      exists ([Sleep (next_delay cfg uniform st); HttpDelete (action_url user) code] ++ t).
      rewrite Ht. unfold st1 at 1; simpl. rewrite <- app_assoc. simpl.
      split; [reflexivity|]. split.
      * unfold follow_attempts in *. simpl. exact Hno.
      * unfold unfollow_attempts in *. simpl. lia.
Qed.

(** Entered with the budget spent, the unfollow loop attempts nothing. *)
Lemma unfollow_loop_exhausted to_unfollow st :
  (cap ≤ action_count st)%nat →
  unfollowed (unfollow_loop to_unfollow st) = unfollowed st
  ∧ ∃ t, events (unfollow_loop to_unfollow st) = events st ++ t
         ∧ unfollow_attempts t = 0%nat ∧ follow_attempts t = 0%nat.
Proof.
  intros Hfull. destruct to_unfollow as [|user rest]; simpl.
  - split; [done|]. exists []. by rewrite app_nil_r.
  - destruct (Nat.leb_spec cap (action_count st)) as [_|Hroom]; [|lia].
    split; [done|]. simpl. eexists. split; [reflexivity|]. by split.
Qed.

(** The whole action phase: the invariant holds at the end, and the trace
    splits into a follow part and an unfollow part, each with at most one
    attempt per candidate. *)
Lemma perform_actions_spec to_follow to_unfollow r :
  let out := perform_actions cfg remote uniform to_follow to_unfollow r in
  counted cfg out
  ∧ ∃ t1 t2, events out = t1 ++ t2
      ∧ unfollow_attempts t1 = 0%nat
      ∧ (follow_attempts t1 ≤ length to_follow)%nat
      ∧ follow_attempts t2 = 0%nat
      ∧ (unfollow_attempts t2 ≤ length to_unfollow)%nat.
Proof.
  intros out.
  destruct (follow_loop_spec to_follow (start r) (counted_start r))
    as (Hmid & _ & t1 & Ht1 & Hno1 & Hle1).
  destruct (unfollow_loop_spec to_unfollow _ Hmid)
    as (Hout & _ & t2 & Ht2 & Hno2 & Hle2).
  split; [exact Hout|]. exists t1, t2.
  split; [|by repeat split]. unfold out, perform_actions.
  rewrite Ht2, Ht1. reflexivity.
Qed.

(** C1.  The realized actions number at most [MAX_ACTIONS_PER_RUN]; the
    trace of the run is the trace of the whole follow loop, which holds no
    unfollow attempt, followed by events that hold no follow attempt; and
    when the follow phase ends with the budget spent, that is with as many
    followed accounts as the cap, no unfollow is attempted or realized. *)
Theorem shared_action_budget to_follow to_unfollow r :
  let mid := follow_loop to_follow (start r) in
  let out := perform_actions cfg remote uniform to_follow to_unfollow r in
  (length (followed out) + length (unfollowed out) ≤ cap)%nat
  ∧ (∃ t, events out = events mid ++ t
          ∧ unfollow_attempts (events mid) = 0%nat
          ∧ follow_attempts t = 0%nat)
  ∧ followed out = followed mid
  ∧ ((cap ≤ length (followed out))%nat →
     unfollowed out = [] ∧ unfollow_attempts (events out) = 0%nat).
Proof.
  intros mid out.
  destruct (follow_loop_spec to_follow (start r) (counted_start r))
    as (Hmid & Hmid_u & t1 & Ht1 & Hno1 & _).
  fold mid in Hmid, Hmid_u, Ht1. simpl in Hmid_u, Ht1.
  destruct (unfollow_loop_spec to_unfollow mid Hmid)
    as (Hout & Hout_f & t2 & Ht2 & Hno2 & _).
  change (unfollow_loop to_unfollow mid) with out in Hout, Hout_f, Ht2.
  split; [destruct Hout as (H1 & H2 & _); lia|].
  split; [exists t2; split; [exact Ht2|]; split; [by rewrite Ht1|done]|].
  split; [exact Hout_f|].
  intros Hfull.
  assert (Hspent : (cap ≤ action_count mid)%nat).
  { destruct Hmid as (H1 & _). rewrite H1, Hmid_u, <- Hout_f. simpl. lia. }
  destruct (unfollow_loop_exhausted to_unfollow mid Hspent)
    as (Hu & t & Ht & Hnu & _).
  change (unfollow_loop to_unfollow mid) with out in Hu, Ht.
  split; [by rewrite Hu, Hmid_u|].
  rewrite Ht, Ht1, unfollow_attempts_app, Hno1, Hnu. reflexivity.
Qed.

End ActionProperties.

Lemma shared_action_budget_witness :
  let out :=
    perform_actions (with_cap 1 source_settings) (fixed_remote (λ _, 204) (λ _, 204))
      (λ a _ _, a) ["a"; "b"] ["z"] tt in
  unfollowed out = [] ∧ unfollow_attempts (events out) = 0%nat.
Proof.
  apply (shared_action_budget (with_cap 1 source_settings)
           (fixed_remote (λ _, 204) (λ _, 204)) (λ a _ _, a) ["a"; "b"] ["z"] tt).
  vm_compute. lia.
Defined.

(** C2, as the script has it.  The shared counter advances on realized
    actions only: at the end of the run it equals the number of 204
    replies in the trace and the number of followed plus unfollowed
    accounts, so a failed attempt consumes none of the budget.  With
    followers [a; b; c], nobody followed and a cap of 2, at most 2 follows
    are realized, in at most 3 follow attempts, and no unfollow is
    attempted. *)
Theorem failed_attempts_are_free :
  (∀ R cfg (remote : Remote R) uniform to_follow to_unfollow (r : R),
      let out := perform_actions cfg remote uniform to_follow to_unfollow r in
      action_count out = realized (events out)
      ∧ action_count out = (length (followed out) + length (unfollowed out))%nat
      ∧ (action_count out ≤ MAX_ACTIONS_PER_RUN cfg)%nat)
  ∧ (∀ R cfg (remote : Remote R) uniform a b c whitelist blacklist (r : R),
      let plan := analyse [a; b; c] [] whitelist blacklist in
      let out :=
        perform_actions (with_cap 2 cfg) remote uniform (fst plan) (snd plan) r in
      (length (followed out) ≤ 2)%nat
      ∧ (follow_attempts (events out) ≤ 3)%nat
      ∧ unfollow_attempts (events out) = 0%nat).
Proof.
  split.
  - intros R cfg remote uniform to_follow to_unfollow r out.
    destruct (perform_actions_spec cfg remote uniform to_follow to_unfollow r)
      as ((H1 & H2 & H3) & _).
    by repeat split.
  - intros R cfg remote uniform a b c whitelist blacklist r plan out.
    destruct (perform_actions_spec (with_cap 2 cfg) remote uniform
                (fst plan) (snd plan) r)
      as ((H1 & H2 & H3) & t1 & t2 & Ht & Hno1 & Hle1 & Hno2 & Hle2).
    fold out in H1, H2, H3, Ht.
    change (MAX_ACTIONS_PER_RUN (with_cap 2 cfg)) with 2%nat in H2.
    assert (Hplan1 : (length (fst plan) ≤ 3)%nat).
    { change (fst plan) with (to_follow_of [a; b; c] [] whitelist blacklist).
      rewrite to_follow_filter.
      etransitivity; [apply length_filter|]. simpl. lia. }
    change (length (snd plan)) with 0%nat in Hle2.
    split; [lia|].
    rewrite Ht, follow_attempts_app, unfollow_attempts_app.
    split; lia.
Qed.

(** C2, as claimed, fails: with followers [a; b; c], nobody followed and a
    cap of 2, when the follow of [a] is refused and the others succeed the
    run makes three follow attempts, more than the cap. *)
Lemma refused_follow_not_counted :
  let remote := fixed_remote (λ u, if String.eqb u "a" then 404 else 204) (λ _, 204) in
  let plan := analyse ["a"; "b"; "c"] [] ∅ ∅ in
  let out :=
    perform_actions (with_cap 2 source_settings) remote (λ a _ _, a)
      (fst plan) (snd plan) tt in
  follow_attempts (events out) = 3%nat
  ∧ ¬ (follow_attempts (events out) ≤ 2)%nat
  ∧ followed out = ["b"; "c"]
  ∧ action_count out = 2%nat.
Proof. vm_compute. repeat split; lia. Qed.

(* ==================== PROPERTIES: pacing ==================== *)

Section Pacing.
Context {R : Type}.
Variable cfg : Settings.
Variable remote : Remote R.
Implicit Types (st : Run R) (uniform : Random) (t : list Event).

Lemma without_sleeps_app t1 t2 :
  without_sleeps (t1 ++ t2) = without_sleeps t1 ++ without_sleeps t2.
Proof. unfold without_sleeps. apply List.filter_app. Qed.

Lemma sleeps_app t1 t2 : sleeps (t1 ++ t2) = sleeps t1 ++ sleeps t2.
Proof.
  induction t1 as [|e t1 IH]; simpl; [done|].
  destruct e; simpl; by rewrite ?IH.
Qed.

Lemma same_stop st1 st2 :
  same_but_pauses st1 st2 →
  same_but_pauses (stop_at_limit cfg st1) (stop_at_limit cfg st2).
Proof.
  intros (Hr & Hd & Hf & Hu & Hc & He). unfold same_but_pauses; simpl.
  rewrite !without_sleeps_app, He. by repeat split.
Qed.

(** Two follow loops over the same candidates, drawing their delays from
    two generators, stay in step. *)
Lemma follow_loop_same uniform1 uniform2 to_follow st1 st2 :
  same_but_pauses st1 st2 →
  same_but_pauses (follow_loop cfg remote uniform1 to_follow st1)
                  (follow_loop cfg remote uniform2 to_follow st2).
Proof.
  revert st1 st2. induction to_follow as [|user rest IH]; intros st1 st2 Hs.
  - exact Hs.
  - simpl. pose proof Hs as (Hr & Hd & Hf & Hu & Hc & He).
    rewrite <- Hc, <- Hr.
    destruct (MAX_ACTIONS_PER_RUN cfg <=? action_count st1)%nat.
    + by apply same_stop.
    + unfold follow_user.
      destruct (put_following remote user (remote_state st1)) as [code r'].
      apply IH. unfold same_but_pauses; simpl.
      rewrite !without_sleeps_app, He, Hd, Hf, Hu, Hc. by repeat split.
Qed.

Lemma unfollow_loop_same uniform1 uniform2 to_unfollow st1 st2 :
  same_but_pauses st1 st2 →
  same_but_pauses (unfollow_loop cfg remote uniform1 to_unfollow st1)
                  (unfollow_loop cfg remote uniform2 to_unfollow st2).
Proof.
  revert st1 st2. induction to_unfollow as [|user rest IH]; intros st1 st2 Hs.
  - exact Hs.
  - simpl. pose proof Hs as (Hr & Hd & Hf & Hu & Hc & He).
    rewrite <- Hc, <- Hr.
    destruct (MAX_ACTIONS_PER_RUN cfg <=? action_count st1)%nat.
    + by apply same_stop.
    + unfold unfollow_user.
      destruct (delete_following remote user (remote_state st1)) as [code r'].
      apply IH. unfold same_but_pauses; simpl.
      rewrite !without_sleeps_app, He, Hd, Hf, Hu, Hc. by repeat split.
Qed.

(** Whatever the state of the remote service is made of, as long as its
    replies do not depend on the delays, the generator changes nothing
    but the pauses. *)
Lemma perform_actions_same uniform1 uniform2 to_follow to_unfollow (r : R) :
  same_but_pauses (perform_actions cfg remote uniform1 to_follow to_unfollow r)
                  (perform_actions cfg remote uniform2 to_follow to_unfollow r).
Proof.
  unfold perform_actions. apply unfollow_loop_same, follow_loop_same.
  by repeat split.
Qed.

Lemma follow_loop_paced uniform to_follow st :
  paced_by cfg uniform st →
  paced_by cfg uniform (follow_loop cfg remote uniform to_follow st).
Proof.
  revert st. induction to_follow as [|user rest IH]; intros st Hp; [exact Hp|].
  simpl. destruct (MAX_ACTIONS_PER_RUN cfg <=? action_count st)%nat.
  - unfold paced_by, stop_at_limit in *; cbn [events draws].
    by rewrite sleeps_app, Hp, app_nil_r.
  - unfold follow_user.
    destruct (put_following remote user (remote_state st)) as [code r'].
    apply IH. unfold paced_by in *; cbn [events draws].
    rewrite sleeps_app, Hp, seq_S, fmap_app. reflexivity.
Qed.

Lemma unfollow_loop_paced uniform to_unfollow st :
  paced_by cfg uniform st →
  paced_by cfg uniform (unfollow_loop cfg remote uniform to_unfollow st).
Proof.
  revert st. induction to_unfollow as [|user rest IH]; intros st Hp; [exact Hp|].
  simpl. destruct (MAX_ACTIONS_PER_RUN cfg <=? action_count st)%nat.
  - unfold paced_by, stop_at_limit in *; cbn [events draws].
    by rewrite sleeps_app, Hp, app_nil_r.
  - unfold unfollow_user.
    destruct (delete_following remote user (remote_state st)) as [code r'].
    apply IH. unfold paced_by in *; cbn [events draws].
    rewrite sleeps_app, Hp, seq_S, fmap_app. reflexivity.
Qed.

Lemma perform_actions_paced uniform to_follow to_unfollow (r : R) :
  paced_by cfg uniform (perform_actions cfg remote uniform to_follow to_unfollow r).
Proof.
  unfold perform_actions. apply unfollow_loop_paced, follow_loop_paced.
  reflexivity.
Qed.

End Pacing.

(** C9.  For fixed followers, following, whitelist and blacklist and a
    fixed status for each identifier, two runs that draw their delays from
    two generators realize the same followed and unfollowed lists and make
    the same calls in the same order: their traces differ in the pauses
    only, and the pauses of each run are its own generator's draws. *)
Theorem delays_only_pace (cfg : Settings) (follow_status unfollow_status : string → Z)
    (uniform1 uniform2 : Random) (followers following : list string)
    (whitelist blacklist : gset string) :
  let remote := fixed_remote follow_status unfollow_status in
  let plan := analyse followers following whitelist blacklist in
  let run1 := perform_actions cfg remote uniform1 (fst plan) (snd plan) tt in
  let run2 := perform_actions cfg remote uniform2 (fst plan) (snd plan) tt in
  followed run1 = followed run2
  ∧ unfollowed run1 = unfollowed run2
  ∧ without_sleeps (events run1) = without_sleeps (events run2)
  ∧ draws run1 = draws run2
  ∧ paced_by cfg uniform1 run1
  ∧ paced_by cfg uniform2 run2.
Proof.
  intros remote plan run1 run2.
  destruct (perform_actions_same cfg remote uniform1 uniform2 (fst plan) (snd plan) tt)
    as (_ & Hd & Hf & Hu & _ & He).
  repeat split; try done; apply perform_actions_paced.
Qed.

(* ==================== PROPERTIES: history ==================== *)

Section HistoryProperties.
Implicit Types (entries : list ActionRecord) (users : list string) (now : string).

Lemma append_records_app entries users now :
  append_records entries users now
  = entries ++ ((λ u, {| user := u; timestamp := now |}) <$> users).
Proof.
  unfold append_records. revert entries.
  induction users as [|u users IH]; intros entries; simpl.
  - by rewrite app_nil_r.
  - rewrite IH, <- app_assoc. reflexivity.
Qed.

Lemma last_slice_split {A} (n : nat) (l : list A) :
  l = take (length l - n) l ++ last_slice n l
  ∧ length (last_slice n l) = (n `min` length l)%nat.
Proof.
  unfold last_slice. split.
  - by rewrite take_drop.
  - rewrite length_drop. lia.
Qed.

(** C5.  The update appends one record, stamped with the run's time, per
    followed identifier to [follows] and one per unfollowed identifier to
    [unfollows], sets [last_run] to that time, and keeps of each sequence
    its newest 1000 entries: what is dropped is a prefix, and the length
    kept is 1000 as soon as the appended sequence has more than that. *)
Theorem history_keeps_newest (history : History) (followed unfollowed : list string)
    (now : string) :
  let stamped := λ u, {| user := u; timestamp := now |} in
  let history' := update_history history followed unfollowed now in
  (∃ dropped,
      follows history ++ (stamped <$> followed) = dropped ++ follows history'
      ∧ length dropped = (length (follows history) + length followed - 1000)%nat)
  ∧ (∃ dropped,
      unfollows history ++ (stamped <$> unfollowed) = dropped ++ unfollows history'
      ∧ length dropped = (length (unfollows history) + length unfollowed - 1000)%nat)
  ∧ length (follows history')
    = (1000 `min` (length (follows history) + length followed))%nat
  ∧ length (unfollows history')
    = (1000 `min` (length (unfollows history) + length unfollowed))%nat
  ∧ last_run history' = Some now.
Proof.
  intros stamped history'. unfold history', update_history; simpl.
  rewrite !append_records_app. fold stamped.
  set (fs := follows history ++ (stamped <$> followed)).
  set (us := unfollows history ++ (stamped <$> unfollowed)).
  assert (Hfs : length fs = (length (follows history) + length followed)%nat).
  { unfold fs. by rewrite length_app, length_fmap. }
  assert (Hus : length us = (length (unfollows history) + length unfollowed)%nat).
  { unfold us. by rewrite length_app, length_fmap. }
  destruct (last_slice_split 1000 fs) as [Hf1 Hf2].
  destruct (last_slice_split 1000 us) as [Hu1 Hu2].
  split.
  { exists (take (length fs - 1000) fs). split; [exact Hf1|].
    rewrite length_take. lia. }
  split.
  { exists (take (length us - 1000) us). split; [exact Hu1|].
    rewrite length_take. lia. }
  rewrite Hf2, Hu2, Hfs, Hus. by repeat split.
Qed.

End HistoryProperties.

(* ==================== PROPERTIES: pagination ==================== *)

Section Pagination.
Variable server : Server.
Variable url : string.
Implicit Types (full : list (list string)) (users : list string) (log : list Event).
Implicit Types (page fuel i : nat).

Lemma pages_requested_app log1 log2 :
  pages_requested (log1 ++ log2) = pages_requested log1 ++ pages_requested log2.
Proof.
  induction log1 as [|e log1 IH]; simpl; [done|].
  destruct e; simpl; by rewrite ?IH.
Qed.

(** A run of full pages, each answered with status 200 and at least
    [per_page] users, is consumed page by page: the loop arrives behind
    them with their logins appended and one request made per page. *)
Lemma loop_through_full_pages full page users log fuel :
  Forall (λ data, (per_page ≤ length data)%nat) full →
  (∀ i data, full !! i = Some data →
     server url (page + i)%nat = {| status_code := 200; body := Users data |}) →
  ∃ log',
    get_all_pages_loop (length full + fuel) server url page users log
    = get_all_pages_loop fuel server url (page + length full)%nat
        (users ++ concat full) (log ++ log')
    ∧ pages_requested log' = seq page (length full).
Proof.
  revert page users log.
  induction full as [|data full IH]; intros page users log Hfull Hpages.
  - exists []. simpl. rewrite !app_nil_r, Nat.add_0_r. by split.
  - apply Forall_cons in Hfull as [Hdata Hfull].
    pose proof (Hpages 0%nat data eq_refl) as Hfirst.
    rewrite Nat.add_0_r in Hfirst.
    destruct (IH (page + 1)%nat (users ++ data)
                (log ++ [HttpGet url page per_page] ++ [Sleep (1 # 2)]) Hfull)
      as (log' & Hloop & Hreq).
    { intros i d Hi. rewrite <- (Hpages (S i) d Hi). f_equal. lia. }
    exists ([HttpGet url page per_page] ++ [Sleep (1 # 2)] ++ log').
    split.
    + cbn [length Nat.add get_all_pages_loop]. rewrite Hfirst. cbn [status_code body].
      destruct data as [|u data]; [unfold per_page in Hdata; simpl in Hdata; lia|].
      replace (length (u :: data) <? per_page)%nat with false
        by (symmetry; apply Nat.ltb_ge; exact Hdata).
      change (200 =? 200) with true. cbn [negb].
      rewrite <- !app_assoc in *. rewrite Hloop.
      replace (page + 1 + length full)%nat with (page + S (length full))%nat by lia.
      reflexivity.
    + rewrite !pages_requested_app, Hreq. simpl.
      replace (page + 1)%nat with (S page) by lia. reflexivity.
Qed.

(** C6.  Let pages 1 to [k] be full pages answered with status 200.  With
    fuel for [k + 1] requests the fetch returns, having requested exactly
    the pages 1 to [k + 1], and
    - when page [k + 1] has another status than 200, whatever its body,
      it returns the logins of the [k] full pages and nothing is raised;
    - when page [k + 1] is answered with status 200 and fewer than
      [per_page] users, none included, it returns the logins of all
      [k + 1] pages. *)
Theorem pagination_stops full fuel :
  Forall (λ data, (per_page ≤ length data)%nat) full →
  (∀ i data, full !! i = Some data →
     server url (S i) = {| status_code := 200; body := Users data |}) →
  (length full < fuel)%nat →
  let last := server url (S (length full)) in
  (status_code last ≠ 200 →
     ∃ log, get_all_pages fuel server url = Some (Returned (concat full), log)
            ∧ pages_requested log = seq 1 (S (length full)))
  ∧ (∀ data, last = {| status_code := 200; body := Users data |} →
     (length data < per_page)%nat →
     ∃ log, get_all_pages fuel server url = Some (Returned (concat full ++ data), log)
            ∧ pages_requested log = seq 1 (S (length full))).
Proof.
  intros Hfull Hpages Hfuel last.
  destruct fuel as [|fuel]; [lia|].
  destruct (loop_through_full_pages full 1 [] [] (S fuel - length full) Hfull)
    as (log' & Hloop & Hreq); [exact Hpages|].
  replace (length full + (S fuel - length full))%nat with (S fuel) in Hloop by lia.
  unfold get_all_pages. rewrite Hloop. clear Hloop.
  replace (S fuel - length full)%nat with (S (fuel - length full)) by lia.
  cbn [get_all_pages_loop]. change (1 + length full)%nat with (S (length full)).
  fold last. split.
  - intros Hstatus. apply Z.eqb_neq in Hstatus. rewrite Hstatus. cbn [negb].
    eexists. split; [reflexivity|].
    rewrite seq_S, !pages_requested_app, Hreq. simpl. by rewrite ?app_nil_r.
  - intros data Hlast Hshort. rewrite Hlast. cbn [status_code body].
    change (200 =? 200) with true. cbn [negb].
    destruct data as [|u data].
    + rewrite app_nil_r. eexists. split; [reflexivity|].
      rewrite seq_S, !pages_requested_app, Hreq. simpl. by rewrite ?app_nil_r.
    + apply Nat.ltb_lt in Hshort. rewrite Hshort.
      eexists. split; [reflexivity|].
      rewrite seq_S, !pages_requested_app, Hreq. simpl. by rewrite ?app_nil_r.
Qed.

End Pagination.

Lemma pagination_stops_witness :
  ∃ log,
    get_all_pages 2 sample_failing_server "u"
    = Some (Returned (concat [replicate 100 "x"]), log)
    ∧ pages_requested log = seq 1 2.
Proof.
  destruct (pagination_stops sample_failing_server "u" [replicate 100 "x"] 2)
    as [Herror _].
  - repeat constructor.
  - intros [|i] data Hi; [|discriminate Hi].
    injection Hi as <-. reflexivity.
  - simpl. lia.
  - apply Herror. vm_compute. discriminate.
Defined.

(* ==================== PROPERTIES: notification ==================== *)

Section Notification.
Implicit Types (env : Environ) (channel : Channel) (message : string).

Lemma truthy_list_spec {A} (l : list A) : truthy_list l = true ↔ l ≠ [].
Proof. destruct l; simpl; split; intros; congruence. Qed.

Lemma acted_spec (followed unfollowed : list string) :
  truthy_list followed || truthy_list unfollowed = true
  ↔ followed ≠ [] ∨ unfollowed ≠ [].
Proof. rewrite orb_true_iff, !truthy_list_spec. tauto. Qed.

(** Unconfigured, the send prints its warning, posts nothing and returns
    [False]. *)
Lemma send_unconfigured env channel message :
  telegram_configured env = false →
  send_telegram_message env channel message = (false, [Print TelegramNotConfigured]).
Proof.
  unfold telegram_configured, send_telegram_message.
  intros H%negb_false_iff. by rewrite H.
Qed.

(** The send never posts more than once and always returns. *)
Lemma send_posts env channel message :
  List.filter is_post (send_telegram_message env channel message).2
  = if telegram_configured env
    then [HttpPost
            ("https://api.telegram.org/bot" +:+ default "" (TELEGRAM_BOT_TOKEN env)
               +:+ "/sendMessage")
            (default "" (TELEGRAM_CHAT_ID env)) message]
    else [].
Proof.
  unfold telegram_configured, send_telegram_message.
  destruct (unset (TELEGRAM_BOT_TOKEN env) || unset (TELEGRAM_CHAT_ID env));
    simpl; [reflexivity|].
  by destruct (channel _ _ _).
Qed.

Lemma posts_app (t1 t2 : list Event) :
  List.filter is_post (t1 ++ t2) = List.filter is_post t1 ++ List.filter is_post t2.
Proof. apply List.filter_app. Qed.

(** Fetching posts nothing. *)
Lemma get_all_pages_loop_posts (server : Server) (url : string) (fuel page : nat)
    (users : list string) (log : list Event) res log' :
  get_all_pages_loop fuel server url page users log = Some (res, log') →
  List.filter is_post log' = List.filter is_post log.
Proof.
  revert page users log. induction fuel as [|fuel IH]; intros page users log; simpl.
  - discriminate.
  - destruct (negb (status_code (server url page) =? 200)).
    + intros [= _ <-]. rewrite !posts_app. simpl. by rewrite !app_nil_r.
    + destruct (body (server url page)) as [data|].
      * destruct data as [|u data].
        -- intros [= _ <-]. rewrite posts_app. simpl. by rewrite app_nil_r.
        -- destruct (length (u :: data) <? per_page)%nat.
           ++ intros [= _ <-]. rewrite posts_app. simpl. by rewrite app_nil_r.
           ++ intros H%IH. rewrite H, !posts_app. simpl. by rewrite !app_nil_r.
      * intros [= _ <-]. rewrite posts_app. simpl. by rewrite app_nil_r.
Qed.

Lemma get_all_pages_posts (server : Server) (url : string) (fuel : nat) res log :
  get_all_pages fuel server url = Some (res, log) → List.filter is_post log = [].
Proof. unfold get_all_pages. apply get_all_pages_loop_posts. Qed.

(** The action phase posts nothing. *)
Lemma follow_loop_posts {R} cfg (remote : Remote R) uniform to_follow (st : Run R) :
  List.filter is_post (events (follow_loop cfg remote uniform to_follow st))
  = List.filter is_post (events st).
Proof.
  revert st. induction to_follow as [|user rest IH]; intros st; simpl; [done|].
  destruct (MAX_ACTIONS_PER_RUN cfg <=? action_count st)%nat.
  - simpl. rewrite posts_app. simpl. by rewrite app_nil_r.
  - unfold follow_user.
    destruct (put_following remote user (remote_state st)) as [code r'].
    rewrite IH. simpl. rewrite posts_app. simpl. by rewrite app_nil_r.
Qed.

Lemma unfollow_loop_posts {R} cfg (remote : Remote R) uniform to_unfollow (st : Run R) :
  List.filter is_post (events (unfollow_loop cfg remote uniform to_unfollow st))
  = List.filter is_post (events st).
Proof.
  revert st. induction to_unfollow as [|user rest IH]; intros st; simpl; [done|].
  destruct (MAX_ACTIONS_PER_RUN cfg <=? action_count st)%nat.
  - simpl. rewrite posts_app. simpl. by rewrite app_nil_r.
  - unfold unfollow_user.
    destruct (delete_following remote user (remote_state st)) as [code r'].
    rewrite IH. simpl. rewrite posts_app. simpl. by rewrite app_nil_r.
Qed.

Lemma perform_actions_posts {R} cfg (remote : Remote R) uniform to_follow to_unfollow
    (r : R) :
  List.filter is_post (events (perform_actions cfg remote uniform to_follow to_unfollow r))
  = [].
Proof. unfold perform_actions. by rewrite unfollow_loop_posts, follow_loop_posts. Qed.

(** The last part of the run, whose only posts are those of the send. *)
Lemma finish_spec {R} env (w : World R) followers following fetch_log (st : Run R) :
  List.filter is_post fetch_log = [] →
  List.filter is_post (events st) = [] →
  let s := finish env w followers following fetch_log st in
  sum_followed s = followed st
  ∧ sum_unfollowed s = unfollowed st
  ∧ (is_Some (sum_message s) ↔ followed st ≠ [] ∨ unfollowed st ≠ [])
  ∧ (is_Some (sum_delivered s) ↔ is_Some (sum_message s))
  ∧ (sum_message s = None → List.filter is_post (sum_events s) = [])
  ∧ (∀ message, sum_message s = Some message →
       List.filter is_post (sum_events s)
       = List.filter is_post (send_telegram_message env (channel w) message).2
       ∧ sum_delivered s = Some (send_telegram_message env (channel w) message).1)
  ∧ is_Some (sum_saved s).
Proof.
  intros Hlog Hst s. unfold s, finish.
  destruct (truthy_list (followed st) || truthy_list (unfollowed st)) eqn:Hacted.
  - apply acted_spec in Hacted.
    destruct (send_telegram_message env (channel w) _) as [delivered sent] eqn:Hsend.
    simpl. rewrite !posts_app, Hlog, Hst. simpl.
    split_and!; eauto; try done.
    intros m [= <-]. by rewrite Hsend.
  - assert (Hnot : ¬ (followed st ≠ [] ∨ unfollowed st ≠ [])).
    { rewrite <- acted_spec, Hacted. discriminate. }
    simpl. rewrite !posts_app, Hlog, Hst. simpl.
    split_and!; eauto; try done.
Qed.

End Notification.

(* ==================== PROPERTIES: report ==================== *)

Section Report.
Implicit Types (s t message title now : string) (users followed unfollowed : list string).

Lemma string_app_cons (a : ascii) s t : String a s +:+ t = String a (s +:+ t).
Proof. reflexivity. Qed.

Lemma string_app_nil_r s : s +:+ "" = s.
Proof. induction s as [|a s IH]; [done|]. by rewrite string_app_cons, IH. Qed.

Lemma string_app_assoc s t u : (s +:+ t) +:+ u = s +:+ (t +:+ u).
Proof. induction s as [|a s IH]; [done|]. by rewrite !string_app_cons, IH. Qed.

Lemma join_app (parts1 parts2 : list string) :
  join (parts1 ++ parts2) = join parts1 +:+ join parts2.
Proof.
  induction parts1 as [|p parts1 IH]; simpl; [done|].
  by rewrite IH, string_app_assoc.
Qed.

(** The loop over [users[:10]] appends the lines of the listed users. *)
Lemma add_users_join users message :
  add_users users message = message +:+ join (user_line <$> listed users).
Proof.
  unfold add_users, listed. generalize (take 10 users) as shown. intros shown.
  revert message. induction shown as [|u shown IH]; intros message; simpl.
  - by rewrite string_app_nil_r.
  - rewrite IH. unfold user_line. simpl.
    by rewrite !string_app_assoc, ?string_app_nil_r.
Qed.

Lemma length_listed users : length (listed users) = (10 `min` length users)%nat.
Proof. apply length_take. Qed.

Lemma report_section_cons title u users message :
  (let message :=
     message +:+ title +:+ str_of_nat (length (u :: users)) +:+ "):</b>" +:+ NL in
   let message := add_users (u :: users) message in
   let message :=
     if (10 <? length (u :: users))%nat then
       message +:+ "  ... and " +:+ str_of_nat (length (u :: users) - 10)
         +:+ " more" +:+ NL
     else message in
   message +:+ NL)
  = message +:+ report_section title (u :: users).
Proof.
  cbv zeta. rewrite add_users_join. unfold report_section, more_line.
  rewrite length_listed.
  destruct (Nat.ltb_spec 10 (length (u :: users))) as [Hmore|Hfew].
  - rewrite (Nat.min_l 10) by lia. cbn [join].
    by rewrite !string_app_assoc, ?string_app_nil_r.
  - cbn [join]. by rewrite !string_app_assoc, ?string_app_nil_r.
Qed.

(** C7.  The report is its header, holding the timestamp and the two
    counts, then the section of the followed identifiers, then the section
    of the unfollowed ones, where the section of an empty list is empty
    and the section of a non-empty list has its title with the count, at
    most the first ten identifiers, the line for the count of those left
    out when there are more than ten, and an empty line; the no-changes
    line ends the report exactly when both lists are empty, and is then
    all that follows the header.  With twelve followed and none
    unfollowed the report lists the first ten, then the line for 2 more,
    and holds no unfollowed section. *)
Theorem report_layout now followed unfollowed stats :
  format_telegram_report now followed unfollowed stats
  = join [report_header now stats;
          report_section followed_title followed;
          report_section unfollowed_title unfollowed;
          match followed, unfollowed with
          | [], [] => no_changes_line
          | _, _ => ""
          end]
  ∧ length (listed followed) = (10 `min` length followed)%nat
  ∧ length (listed unfollowed) = (10 `min` length unfollowed)%nat
  ∧ format_telegram_report now [] [] stats
    = report_header now stats +:+ no_changes_line
  ∧ ∀ u1 u2 u3 u4 u5 u6 u7 u8 u9 u10 u11 u12 : string,
      format_telegram_report now [u1; u2; u3; u4; u5; u6; u7; u8; u9; u10; u11; u12]
        [] stats
      = join [report_header now stats;
              followed_title; "12"; "):</b>"; NL;
              user_line u1; user_line u2; user_line u3; user_line u4;
              user_line u5; user_line u6; user_line u7; user_line u8;
              user_line u9; user_line u10;
              "  ... and "; "2"; " more"; NL;
              NL].
Proof.
  assert (Hlayout : ∀ followed unfollowed,
    format_telegram_report now followed unfollowed stats
    = join [report_header now stats;
            report_section followed_title followed;
            report_section unfollowed_title unfollowed;
            match followed, unfollowed with
            | [], [] => no_changes_line
            | _, _ => ""
            end]).
  { clear. intros followed unfollowed. unfold format_telegram_report.
    destruct followed as [|f followed]; destruct unfollowed as [|u unfollowed];
      cbv beta iota zeta; rewrite ?report_section_cons;
      unfold report_header; cbn [join report_section];
      by rewrite ?string_app_assoc, ?string_app_nil_r. }
  split_and!.
  - apply Hlayout.
  - apply length_listed.
  - apply length_listed.
  - rewrite Hlayout. cbn [join report_section]. by rewrite string_app_nil_r.
  - intros. rewrite Hlayout. cbn [join report_section].
    unfold listed, more_line. cbn [take fmap list_fmap join length Nat.ltb Nat.leb Nat.sub].
    change (str_of_nat 12) with "12". change (str_of_nat 2) with "2".
    by rewrite ?string_app_assoc, ?string_app_nil_r.
Qed.

End Report.

(* ==================== PROPERTIES: list files ==================== *)

Section ListFiles.
Implicit Types (s line content x : string) (c : ascii).

Lemma lower_ascii_idemp c : lower_ascii (lower_ascii c) = lower_ascii c.
Proof. destruct c as [[] [] [] [] [] [] [] []]; reflexivity. Qed.

Lemma isspace_lower_ascii c : isspace (lower_ascii c) = isspace c.
Proof. destruct c as [[] [] [] [] [] [] [] []]; reflexivity. Qed.

Lemma lower_idemp s : lower (lower s) = lower s.
Proof. induction s as [|c s IH]; simpl; [done|]. by rewrite lower_ascii_idemp, IH. Qed.

Lemma lstrip_lower s : lstrip (lower s) = lower (lstrip s).
Proof.
  induction s as [|c s IH]; simpl; [done|].
  rewrite isspace_lower_ascii. by destruct (isspace c).
Qed.

Lemma rstrip_lower s : rstrip (lower s) = lower (rstrip s).
Proof.
  induction s as [|c s IH]; simpl; [done|].
  rewrite IH, isspace_lower_ascii.
  destruct (rstrip s); simpl; [|done]. by destruct (isspace c).
Qed.

Lemma strip_lower s : strip (lower s) = lower (strip s).
Proof. unfold strip. by rewrite lstrip_lower, rstrip_lower. Qed.

Lemma lstrip_no_leading_space s : no_leading_space (lstrip s).
Proof.
  induction s as [|c s IH]; simpl; [done|].
  destruct (isspace c) eqn:Hc; [exact IH|exact Hc].
Qed.

Lemma lstrip_fixed s : no_leading_space s → lstrip s = s.
Proof. destruct s as [|c s]; simpl; [done|]. by intros ->. Qed.

Lemma rstrip_no_leading_space s : no_leading_space s → no_leading_space (rstrip s).
Proof.
  destruct s as [|c s]; simpl; [done|]. intros Hc.
  destruct (rstrip s); simpl; [by rewrite Hc|done].
Qed.

Lemma rstrip_idemp s : rstrip (rstrip s) = rstrip s.
Proof.
  induction s as [|c s IH]; simpl; [done|].
  destruct (rstrip s) as [|c' r] eqn:Hr.
  - destruct (isspace c) eqn:Hc; simpl; [done|]. by rewrite Hc.
  - change (rstrip (String c (String c' r)))
      with (match rstrip (String c' r) with
            | EmptyString => if isspace c then EmptyString else String c EmptyString
            | r' => String c r'
            end).
    by rewrite IH.
Qed.

Lemma strip_idemp s : strip (strip s) = strip s.
Proof.
  unfold strip.
  rewrite (lstrip_fixed (rstrip (lstrip s))).
  - apply rstrip_idemp.
  - apply rstrip_no_leading_space, lstrip_no_leading_space.
Qed.

Lemma truthy_spec s : truthy s = true ↔ s ≠ "".
Proof. destruct s; simpl; split; intros; congruence. Qed.

Lemma lower_nonempty s : s ≠ "" → lower s ≠ "".
Proof. by destruct s. Qed.

(** The lines of a text, put together again, are the text. *)
Lemma join_splitlines_keep s : join (splitlines_keep s) = s.
Proof.
  induction s as [|c s IH]; simpl; [done|].
  destruct (Ascii.eqb c LF).
  - simpl. by rewrite IH.
  - destruct (splitlines_keep s) as [|l ls]; simpl in *; by rewrite <- IH.
Qed.

(** The comment marker is looked for on the line as read, before
    trimming: an indented [#] does not make a comment. *)
Lemma indented_marker_is_kept :
  load_list_file (Some ("bob" +:+ NL +:+ "#carol" +:+ NL +:+ "  #dave" +:+ NL))
  = {["bob"; "#dave"]}.
Proof. apply set_eq. intros x. vm_compute. set_solver. Qed.

End ListFiles.

(* ==================== MORE ON THE ANALYSIS ==================== *)

Section AnalysisSafety.
Implicit Types (followers following : list string).
Implicit Types (whitelist blacklist : gset string) (u v line content : string).

(** X1.  A follow candidate is a follower that is not blacklisted and
    that, up to case, is not followed yet; an unfollow candidate is a
    followed account that is not whitelisted and that, up to case, is not
    a follower. *)
Theorem candidates_respect_policy followers following whitelist blacklist u :
  (u ∈ to_follow_of followers following whitelist blacklist →
     u ∈ followers ∧ lower u ∉ blacklist
     ∧ ∀ v, v ∈ following → lower v ≠ lower u)
  ∧ (u ∈ to_unfollow_of followers following whitelist blacklist →
     u ∈ following ∧ lower u ∉ whitelist
     ∧ ∀ v, v ∈ followers → lower v ≠ lower u).
Proof.
  rewrite to_follow_filter, to_unfollow_filter. split.
  - intros [[Hnot Hb] Hu]%list_elem_of_filter. split_and!; [done..|].
    intros v Hv Heq. apply Hnot. rewrite <- Heq. by apply list_elem_of_fmap_2.
  - intros [[Hnot Hw] Hu]%list_elem_of_filter. split_and!; [done..|].
    intros v Hv Heq. apply Hnot. rewrite <- Heq. by apply list_elem_of_fmap_2.
Qed.

Lemma candidates_respect_policy_witness :
  "carol" ∈ ["bob"; "carol"] ∧ lower "carol" ∉ ({["dave"]} : gset string)
  ∧ ∀ v, v ∈ ["alice"; "bob"] → lower v ≠ lower "carol".
Proof.
  apply (candidates_respect_policy ["alice"; "bob"] ["bob"; "carol"] {["dave"]} ∅ "carol").
  vm_compute. apply list_elem_of_here.
Defined.

(** X2.  No identifier is at once a follow candidate and an unfollow
    candidate, in whatever spelling. *)
Theorem candidates_disjoint followers following whitelist blacklist u v :
  u ∈ to_follow_of followers following whitelist blacklist →
  v ∈ to_unfollow_of followers following whitelist blacklist →
  lower u ≠ lower v.
Proof.
  rewrite to_follow_filter, to_unfollow_filter.
  intros [[Hnot _] _]%list_elem_of_filter [_ Hv]%list_elem_of_filter Heq.
  apply Hnot. rewrite Heq. by apply list_elem_of_fmap_2.
Qed.

Lemma candidates_disjoint_witness : lower "alice" ≠ lower "carol".
Proof.
  apply (candidates_disjoint ["alice"; "bob"] ["bob"; "carol"] ∅ ∅ "alice" "carol").
  - vm_compute. apply list_elem_of_here.
  - vm_compute. apply list_elem_of_here.
Defined.

(** Membership in the set that a policy file is loaded into. *)
Lemma elem_of_load_list_file content (x : string) :
  x ∈ load_list_file (Some content)
  ↔ ∃ line, line ∈ file_lines content
            ∧ strip line ≠ "" ∧ startswith line "#" = false
            ∧ x = lower (strip line).
Proof.
  unfold load_list_file.
  rewrite elem_of_list_to_set, list_elem_of_In, in_map_iff. split.
  - intros (line & <- & Hin). apply filter_In in Hin as [Hin Hkeep].
    apply andb_true_iff in Hkeep as [Hne Hhash].
    exists line. rewrite list_elem_of_In.
    split; [done|]. split; [by apply truthy_spec|].
    split; [by apply negb_true_iff|done].
  - intros (line & Hin & Hne & Hhash & ->). exists line. split; [done|].
    apply filter_In. split; [by apply list_elem_of_In|].
    apply andb_true_iff. split; [by apply truthy_spec|by apply negb_true_iff].
Qed.

(** X3.  An account named on a line of the whitelist file, in whatever
    case and with whatever blanks around it, is never an unfollow
    candidate; an account named on a line of the blacklist file is never
    a follow candidate.  The line counts when it is not blank and does
    not start with [#]. *)
Theorem file_entries_protect content line followers following u :
  line ∈ file_lines content →
  strip line ≠ "" → startswith line "#" = false →
  lower (strip line) = lower u →
  (∀ blacklist,
     u ∉ to_unfollow_of followers following (load_list_file (Some content)) blacklist)
  ∧ (∀ whitelist,
     u ∉ to_follow_of followers following whitelist (load_list_file (Some content))).
Proof.
  intros Hline Hne Hhash Heq.
  assert (Hin : lower u ∈ load_list_file (Some content)).
  { apply elem_of_load_list_file. exists line. by rewrite Heq. }
  split; intros pol.
  - rewrite to_unfollow_filter. by intros [[_ Hw] _]%list_elem_of_filter.
  - rewrite to_follow_filter. by intros [[_ Hb] _]%list_elem_of_filter.
Qed.

Lemma file_entries_protect_witness :
  (∀ blacklist,
     "ALICE" ∉ to_unfollow_of [] ["ALICE"] (load_list_file (Some sample_policy_file))
                 blacklist)
  ∧ (∀ whitelist,
     "ALICE" ∉ to_follow_of [] ["ALICE"] whitelist
                 (load_list_file (Some sample_policy_file))).
Proof.
  apply (file_entries_protect sample_policy_file ("  Alice " +:+ NL)).
  - vm_compute. apply list_elem_of_further, list_elem_of_here.
  - vm_compute. discriminate.
  - reflexivity.
  - reflexivity.
Defined.

End AnalysisSafety.

(* ==================== MORE ON THE ACTIONS ==================== *)

Section ActionOrder.
Context {R : Type}.
Variable cfg : Settings.
Variable remote : Remote R.
Variable uniform : Random.
Implicit Types (st : Run R) (r : R) (t : list Event) (l : list string).

Local Abbreviation cap := (MAX_ACTIONS_PER_RUN cfg).
Local Abbreviation follow_loop := (follow_loop cfg remote uniform).
Local Abbreviation unfollow_loop := (unfollow_loop cfg remote uniform).

Lemma put_urls_app t1 t2 : put_urls (t1 ++ t2) = put_urls t1 ++ put_urls t2.
Proof.
  induction t1 as [|e t1 IH]; simpl; [done|]. destruct e; simpl; by rewrite ?IH.
Qed.

Lemma delete_urls_app t1 t2 :
  delete_urls (t1 ++ t2) = delete_urls t1 ++ delete_urls t2.
Proof.
  induction t1 as [|e t1 IH]; simpl; [done|]. destruct e; simpl; by rewrite ?IH.
Qed.

(** The follow loop calls the remote service for a prefix of its
    candidates, once each and in order, and what it adds to [followed] is
    picked from that prefix in order. *)
Lemma follow_loop_prefix l st :
  let st' := follow_loop l st in
  ∃ k done,
    put_urls (events st') = put_urls (events st) ++ (action_url <$> take k l)
    ∧ delete_urls (events st') = delete_urls (events st)
    ∧ followed st' = followed st ++ done
    ∧ unfollowed st' = unfollowed st
    ∧ done `sublist_of` take k l.
Proof.
  revert st. induction l as [|user rest IH]; intros st; simpl.
  - exists 0%nat, []. by rewrite !app_nil_r.
  - destruct (MAX_ACTIONS_PER_RUN cfg <=? action_count st)%nat.
    + exists 0%nat, []. simpl.
      rewrite put_urls_app, delete_urls_app. simpl. by rewrite !app_nil_r.
    + unfold follow_user.
      destruct (put_following remote user (remote_state st)) as [code r'].
      match goal with |- context [follow_loop rest ?s] => set (st1 := s) end.
      destruct (IH st1) as (k & done & Hput & Hdel & Hf & Hu & Hsub).
      rewrite Hput, Hdel, Hf, Hu. unfold st1; simpl.
      rewrite put_urls_app, delete_urls_app. simpl. rewrite app_nil_r.
      destruct (code =? 204).
      * exists (S k), (user :: done). simpl. rewrite <- !app_assoc. simpl.
        split_and!; try done. by apply sublist_skip.
      * exists (S k), done. simpl. rewrite <- !app_assoc. simpl.
        split_and!; try done. by apply sublist_cons.
Qed.

Lemma unfollow_loop_prefix l st :
  let st' := unfollow_loop l st in
  ∃ k done,
    delete_urls (events st') = delete_urls (events st) ++ (action_url <$> take k l)
    ∧ put_urls (events st') = put_urls (events st)
    ∧ unfollowed st' = unfollowed st ++ done
    ∧ followed st' = followed st
    ∧ done `sublist_of` take k l.
Proof.
  revert st. induction l as [|user rest IH]; intros st; simpl.
  - exists 0%nat, []. by rewrite !app_nil_r.
  - destruct (MAX_ACTIONS_PER_RUN cfg <=? action_count st)%nat.
    + exists 0%nat, []. simpl.
      rewrite put_urls_app, delete_urls_app. simpl. by rewrite !app_nil_r.
    + unfold unfollow_user.
      destruct (delete_following remote user (remote_state st)) as [code r'].
      match goal with |- context [unfollow_loop rest ?s] => set (st1 := s) end.
      destruct (IH st1) as (k & done & Hdel & Hput & Hu & Hf & Hsub).
      rewrite Hput, Hdel, Hf, Hu. unfold st1; simpl.
      rewrite put_urls_app, delete_urls_app. simpl. rewrite app_nil_r.
      destruct (code =? 204).
      * exists (S k), (user :: done). simpl. rewrite <- !app_assoc. simpl.
        split_and!; try done. by apply sublist_skip.
      * exists (S k), done. simpl. rewrite <- !app_assoc. simpl.
        split_and!; try done. by apply sublist_cons.
Qed.

(** X4.  A run calls the remote service for a prefix of the follow
    candidates and for a prefix of the unfollow candidates, each candidate
    at most once and in the order of the lists: nothing is retried and
    nobody outside the two lists is touched.  The followed and unfollowed
    lists are picked, in order, from those prefixes. *)
Theorem attempts_are_prefixes to_follow to_unfollow r :
  let out := perform_actions cfg remote uniform to_follow to_unfollow r in
  ∃ k1 k2,
    put_urls (events out) = action_url <$> take k1 to_follow
    ∧ delete_urls (events out) = action_url <$> take k2 to_unfollow
    ∧ followed out `sublist_of` take k1 to_follow
    ∧ unfollowed out `sublist_of` take k2 to_unfollow.
Proof.
  intros out. unfold out, perform_actions.
  destruct (follow_loop_prefix to_follow (start r))
    as (k1 & done1 & Hput1 & Hdel1 & Hf1 & Hu1 & Hsub1).
  destruct (unfollow_loop_prefix to_unfollow (follow_loop to_follow (start r)))
    as (k2 & done2 & Hdel2 & Hput2 & Hu2 & Hf2 & Hsub2).
  exists k1, k2. rewrite Hput2, Hdel2, Hf2, Hu2, Hput1, Hdel1, Hf1, Hu1.
  by split_and!.
Qed.

End ActionOrder.

Section ActionOutcomes.
Context {R : Type}.
Variable cfg : Settings.
Variable remote : Remote R.
Variable uniform : Random.
Implicit Types (st : Run R) (r : R) (t : list Event) (l : list string).

Local Abbreviation cap := (MAX_ACTIONS_PER_RUN cfg).
Local Abbreviation follow_loop := (follow_loop cfg remote uniform).
Local Abbreviation unfollow_loop := (unfollow_loop cfg remote uniform).

(** On a service that accepts everything the follow loop takes candidates
    from the front until the budget is spent. *)
Lemma follow_loop_accepted l st :
  always_accepts remote →
  let st' := follow_loop l st in
  followed st' = followed st ++ take (cap - action_count st) l
  ∧ unfollowed st' = unfollowed st
  ∧ action_count st'
    = (action_count st + length (take (cap - action_count st) l))%nat.
Proof.
  intros [Hput _]. revert st. induction l as [|user rest IH]; intros st; simpl.
  - rewrite take_nil, app_nil_r. simpl. split_and!; [done..|lia].
  - destruct (Nat.leb_spec cap (action_count st)) as [Hfull|Hroom].
    + replace (cap - action_count st)%nat with 0%nat by lia. simpl.
      rewrite app_nil_r. split_and!; [done..|lia].
    + unfold follow_user. pose proof (Hput user (remote_state st)) as Hcode.
      destruct (put_following remote user (remote_state st)) as [code r'].
      simpl in Hcode. subst code. change (204 =? 204) with true. cbv iota.
      match goal with |- context [follow_loop rest ?s] => set (st1 := s) end.
      destruct (IH st1) as (Hf & Hu & Hc). rewrite Hf, Hu, Hc. unfold st1; simpl.
      replace (cap - action_count st)%nat with (S (cap - (action_count st + 1)))
        by lia.
      simpl. rewrite <- app_assoc. simpl. split_and!; [done..|lia].
Qed.

Lemma unfollow_loop_accepted l st :
  always_accepts remote →
  let st' := unfollow_loop l st in
  unfollowed st' = unfollowed st ++ take (cap - action_count st) l
  ∧ followed st' = followed st.
Proof.
  intros [_ Hdel]. revert st. induction l as [|user rest IH]; intros st; simpl.
  - by rewrite take_nil, app_nil_r.
  - destruct (Nat.leb_spec cap (action_count st)) as [Hfull|Hroom].
    + replace (cap - action_count st)%nat with 0%nat by lia. simpl.
      by rewrite app_nil_r.
    + unfold unfollow_user. pose proof (Hdel user (remote_state st)) as Hcode.
      destruct (delete_following remote user (remote_state st)) as [code r'].
      simpl in Hcode. subst code. change (204 =? 204) with true. cbv iota.
      match goal with |- context [unfollow_loop rest ?s] => set (st1 := s) end.
      destruct (IH st1) as (Hu & Hf). rewrite Hf, Hu. unfold st1; simpl.
      replace (cap - action_count st)%nat with (S (cap - (action_count st + 1)))
        by lia.
      simpl. by rewrite <- app_assoc.
Qed.

(** X5.  When the remote service accepts every call, the run follows the
    first [MAX_ACTIONS_PER_RUN] follow candidates and spends what is left
    of the budget on the first unfollow candidates: follows come first and
    can leave nothing for the unfollows. *)
Theorem accepted_run_takes_prefixes to_follow to_unfollow r :
  always_accepts remote →
  let out := perform_actions cfg remote uniform to_follow to_unfollow r in
  followed out = take cap to_follow
  ∧ unfollowed out = take (cap - length (followed out)) to_unfollow.
Proof.
  intros Hok out. unfold out, perform_actions.
  destruct (follow_loop_accepted to_follow (start r) Hok) as (Hf & Hu & Hc).
  destruct (unfollow_loop_accepted to_unfollow (follow_loop to_follow (start r)) Hok)
    as (Hu' & Hf').
  rewrite Hf', Hu', Hf, Hu, Hc. simpl. by rewrite Nat.sub_0_r.
Qed.

(** On a service that refuses everything the loops spend nothing and so
    go through all their candidates. *)
Lemma follow_loop_refused l st :
  always_refuses remote →
  (action_count st < cap)%nat →
  let st' := follow_loop l st in
  followed st' = followed st ∧ unfollowed st' = unfollowed st
  ∧ action_count st' = action_count st
  ∧ follow_attempts (events st') = (follow_attempts (events st) + length l)%nat
  ∧ unfollow_attempts (events st') = unfollow_attempts (events st).
Proof.
  intros [Hput _]. revert st. induction l as [|user rest IH]; intros st Hroom; simpl.
  - split_and!; [done..|lia|done].
  - destruct (Nat.leb_spec cap (action_count st)) as [Hfull|_]; [lia|].
    unfold follow_user. pose proof (Hput user (remote_state st)) as Hcode.
    destruct (put_following remote user (remote_state st)) as [code r'].
    simpl in Hcode. apply Z.eqb_neq in Hcode. rewrite Hcode.
    match goal with |- context [follow_loop rest ?s] => set (st1 := s) end.
    destruct (IH st1 Hroom) as (Hf & Hu & Hc & Ha & Hb).
    rewrite Hf, Hu, Hc, Ha, Hb. unfold st1; simpl.
    rewrite follow_attempts_app, unfollow_attempts_app.
    unfold follow_attempts at 2, unfollow_attempts at 2. simpl.
    split_and!; [done..|lia|lia].
Qed.

Lemma unfollow_loop_refused l st :
  always_refuses remote →
  (action_count st < cap)%nat →
  let st' := unfollow_loop l st in
  followed st' = followed st ∧ unfollowed st' = unfollowed st
  ∧ follow_attempts (events st') = follow_attempts (events st)
  ∧ unfollow_attempts (events st') = (unfollow_attempts (events st) + length l)%nat.
Proof.
  intros [_ Hdel]. revert st. induction l as [|user rest IH]; intros st Hroom; simpl.
  - split_and!; [done..|lia].
  - destruct (Nat.leb_spec cap (action_count st)) as [Hfull|_]; [lia|].
    unfold unfollow_user. pose proof (Hdel user (remote_state st)) as Hcode.
    destruct (delete_following remote user (remote_state st)) as [code r'].
    simpl in Hcode. apply Z.eqb_neq in Hcode. rewrite Hcode.
    match goal with |- context [unfollow_loop rest ?s] => set (st1 := s) end.
    destruct (IH st1 Hroom) as (Hf & Hu & Ha & Hb).
    rewrite Hf, Hu, Ha, Hb. unfold st1; simpl.
    rewrite follow_attempts_app, unfollow_attempts_app.
    unfold follow_attempts at 2, unfollow_attempts at 2. simpl.
    split_and!; [done..|lia|lia].
Qed.

(** X6.  When the remote service refuses every call and the cap is not
    zero, the run realizes nothing and calls the service once for every
    candidate of both lists, however many there are: the cap does not
    bound the number of calls. *)
Theorem refused_run_tries_everyone to_follow to_unfollow r :
  always_refuses remote →
  (0 < cap)%nat →
  let out := perform_actions cfg remote uniform to_follow to_unfollow r in
  followed out = [] ∧ unfollowed out = []
  ∧ follow_attempts (events out) = length to_follow
  ∧ unfollow_attempts (events out) = length to_unfollow.
Proof.
  intros Hno Hcap out. unfold out, perform_actions.
  destruct (follow_loop_refused to_follow (start r) Hno Hcap)
    as (Hf & Hu & Hc & Ha & Hb).
  assert (Hroom : (action_count (follow_loop to_follow (start r)) < cap)%nat)
    by (rewrite Hc; exact Hcap).
  destruct (unfollow_loop_refused to_unfollow _ Hno Hroom) as (Hf' & Hu' & Ha' & Hb').
  rewrite Hf', Hu', Ha', Hb', Hf, Hu, Ha, Hb. by split_and!.
Qed.

End ActionOutcomes.

Lemma accepted_run_takes_prefixes_witness :
  let out :=
    perform_actions (with_cap 2 source_settings) (fixed_remote (λ _, 204) (λ _, 204))
      (λ a _ _, a) ["a"; "b"; "c"] ["z"] tt in
  followed out = take 2 ["a"; "b"; "c"]
  ∧ unfollowed out = take (2 - length (followed out)) ["z"].
Proof.
  apply (accepted_run_takes_prefixes (with_cap 2 source_settings)
           (fixed_remote (λ _, 204) (λ _, 204)) (λ a _ _, a)).
  split; reflexivity.
Defined.

Lemma refused_run_tries_everyone_witness :
  let out :=
    perform_actions (with_cap 1 source_settings) (fixed_remote (λ _, 403) (λ _, 403))
      (λ a _ _, a) ["a"; "b"; "c"] ["y"; "z"] tt in
  followed out = [] ∧ unfollowed out = []
  ∧ follow_attempts (events out) = 3%nat
  ∧ unfollow_attempts (events out) = 2%nat.
Proof.
  apply (refused_run_tries_everyone (with_cap 1 source_settings)
           (fixed_remote (λ _, 403) (λ _, 403)) (λ a _ _, a)).
  - split; intros; simpl; discriminate.
  - simpl. lia.
Defined.

Section ActionPacing.
Context {R : Type}.
Variable cfg : Settings.
Variable remote : Remote R.
Variable uniform : Random.
Implicit Types (st : Run R) (r : R) (t : list Event) (l : list string).

Local Abbreviation cap := (MAX_ACTIONS_PER_RUN cfg).
Local Abbreviation follow_loop := (follow_loop cfg remote uniform).
Local Abbreviation unfollow_loop := (unfollow_loop cfg remote uniform).

Lemma limit_notices_app t1 t2 :
  List.filter is_limit_notice (t1 ++ t2)
  = List.filter is_limit_notice t1 ++ List.filter is_limit_notice t2.
Proof. apply List.filter_app. Qed.

(** With room for all its candidates the follow loop reaches the end of
    its list. *)
Lemma follow_loop_within l st :
  (action_count st + length l ≤ cap)%nat →
  let st' := follow_loop l st in
  (action_count st' ≤ action_count st + length l)%nat
  ∧ follow_attempts (events st') = (follow_attempts (events st) + length l)%nat
  ∧ unfollow_attempts (events st') = unfollow_attempts (events st)
  ∧ List.filter is_limit_notice (events st') = List.filter is_limit_notice (events st).
Proof.
  revert st. induction l as [|user rest IH]; intros st Hroom; simpl.
  - split_and!; [lia|lia|done|done].
  - simpl in Hroom.
    destruct (Nat.leb_spec cap (action_count st)) as [Hfull|_]; [lia|].
    unfold follow_user.
    destruct (put_following remote user (remote_state st)) as [code r'].
    match goal with |- context [follow_loop rest ?s] => set (st1 := s) end.
    assert (Hroom1 : (action_count st1 + length rest ≤ cap)%nat).
    { unfold st1; simpl. destruct (code =? 204); lia. }
    destruct (IH st1 Hroom1) as (Hc & Ha & Hb & Hn).
    rewrite Ha, Hb, Hn. unfold st1 in *; simpl in *.
    rewrite follow_attempts_app, unfollow_attempts_app, limit_notices_app.
    unfold follow_attempts at 2, unfollow_attempts at 2. simpl.
    rewrite app_nil_r. split_and!; [destruct (code =? 204); lia|lia|lia|done].
Qed.

Lemma unfollow_loop_within l st :
  (action_count st + length l ≤ cap)%nat →
  let st' := unfollow_loop l st in
  follow_attempts (events st') = follow_attempts (events st)
  ∧ unfollow_attempts (events st') = (unfollow_attempts (events st) + length l)%nat
  ∧ List.filter is_limit_notice (events st') = List.filter is_limit_notice (events st).
Proof.
  revert st. induction l as [|user rest IH]; intros st Hroom; simpl.
  - split_and!; [done|lia|done].
  - simpl in Hroom.
    destruct (Nat.leb_spec cap (action_count st)) as [Hfull|_]; [lia|].
    unfold unfollow_user.
    destruct (delete_following remote user (remote_state st)) as [code r'].
    match goal with |- context [unfollow_loop rest ?s] => set (st1 := s) end.
    assert (Hroom1 : (action_count st1 + length rest ≤ cap)%nat).
    { unfold st1; simpl. destruct (code =? 204); lia. }
    destruct (IH st1 Hroom1) as (Ha & Hb & Hn).
    rewrite Ha, Hb, Hn. unfold st1 in *; simpl in *.
    rewrite follow_attempts_app, unfollow_attempts_app, limit_notices_app.
    unfold follow_attempts at 2, unfollow_attempts at 2. simpl.
    rewrite app_nil_r. split_and!; [lia|lia|done].
Qed.

(** X7.  When the candidates of both lists together are no more than the
    cap, every candidate is tried, whatever the remote service answers,
    and the limit notice is never printed. *)
Theorem small_plan_is_tried_in_full to_follow to_unfollow r :
  (length to_follow + length to_unfollow ≤ cap)%nat →
  let out := perform_actions cfg remote uniform to_follow to_unfollow r in
  follow_attempts (events out) = length to_follow
  ∧ unfollow_attempts (events out) = length to_unfollow
  ∧ List.filter is_limit_notice (events out) = [].
Proof.
  intros Hsmall out. unfold out, perform_actions.
  destruct (follow_loop_within to_follow (start r)) as (Hc & Ha & Hb & Hn);
    [simpl; lia|].
  destruct (unfollow_loop_within to_unfollow (follow_loop to_follow (start r)))
    as (Ha' & Hb' & Hn'); [simpl in Hc; lia|].
  rewrite Ha', Hb', Hn', Ha, Hb, Hn. by split_and!.
Qed.

Lemma paced_go_app (rested : bool) t1 t2 :
  paced_go rested t1 = true → paced t2 = true → paced_go rested (t1 ++ t2) = true.
Proof.
  revert rested. induction t1 as [|e t1 IH]; intros rested; simpl.
  - by intros ->%negb_true_iff.
  - intros H1 H2.
    destruct e; try discriminate H1;
      apply andb_true_iff in H1 as [Hb H1];
      apply andb_true_iff; (split; [exact Hb|by apply IH]).
Qed.

(** The pacing invariant of the action phase. *)
Lemma follow_loop_rests l st :
  paced (events st) = true →
  draws st = (follow_attempts (events st) + unfollow_attempts (events st))%nat →
  let st' := follow_loop l st in
  paced (events st') = true
  ∧ draws st' = (follow_attempts (events st') + unfollow_attempts (events st'))%nat.
Proof.
  revert st. induction l as [|user rest IH]; intros st Hp Hd; simpl.
  - by split.
  - destruct (MAX_ACTIONS_PER_RUN cfg <=? action_count st)%nat.
    + simpl. rewrite follow_attempts_app, unfollow_attempts_app.
      split; [by apply paced_go_app|].
      unfold follow_attempts at 2, unfollow_attempts at 2. simpl. lia.
    + unfold follow_user.
      destruct (put_following remote user (remote_state st)) as [code r'].
      apply IH; simpl.
      * by apply paced_go_app.
      * rewrite follow_attempts_app, unfollow_attempts_app.
        unfold follow_attempts at 2, unfollow_attempts at 2. simpl. lia.
Qed.

Lemma unfollow_loop_rests l st :
  paced (events st) = true →
  draws st = (follow_attempts (events st) + unfollow_attempts (events st))%nat →
  let st' := unfollow_loop l st in
  paced (events st') = true
  ∧ draws st' = (follow_attempts (events st') + unfollow_attempts (events st'))%nat.
Proof.
  revert st. induction l as [|user rest IH]; intros st Hp Hd; simpl.
  - by split.
  - destruct (MAX_ACTIONS_PER_RUN cfg <=? action_count st)%nat.
    + simpl. rewrite follow_attempts_app, unfollow_attempts_app.
      split; [by apply paced_go_app|].
      unfold follow_attempts at 2, unfollow_attempts at 2. simpl. lia.
    + unfold unfollow_user.
      destruct (delete_following remote user (remote_state st)) as [code r'].
      apply IH; simpl.
      * by apply paced_go_app.
      * rewrite follow_attempts_app, unfollow_attempts_app.
        unfold follow_attempts at 2, unfollow_attempts at 2. simpl. lia.
Qed.

(** X8.  Every call of the action phase, the first included, comes right
    after a pause of its own, no pause is left unused, and the number of
    random draws is the number of calls. *)
Theorem every_call_is_paced to_follow to_unfollow r :
  let out := perform_actions cfg remote uniform to_follow to_unfollow r in
  paced (events out) = true
  ∧ draws out = (follow_attempts (events out) + unfollow_attempts (events out))%nat
  ∧ length (sleeps (events out)) = draws out.
Proof.
  intros out.
  destruct (follow_loop_rests to_follow (start r)) as (Hp & Hd); [done..|].
  destruct (unfollow_loop_rests to_unfollow _ Hp Hd) as (Hp' & Hd').
  split_and!; [exact Hp'|exact Hd'|].
  pose proof (perform_actions_paced cfg remote uniform to_follow to_unfollow r)
    as Hpaced.
  unfold paced_by in Hpaced. fold out in Hpaced.
  by rewrite Hpaced, length_fmap, length_seq.
Qed.

End ActionPacing.

Lemma small_plan_is_tried_in_full_witness :
  let out :=
    perform_actions source_settings (fixed_remote (λ _, 204) (λ _, 500))
      (λ a _ _, a) ["a"; "b"] ["y"; "z"] tt in
  follow_attempts (events out) = 2%nat
  ∧ unfollow_attempts (events out) = 2%nat
  ∧ List.filter is_limit_notice (events out) = [].
Proof.
  apply (small_plan_is_tried_in_full source_settings
           (fixed_remote (λ _, 204) (λ _, 500)) (λ a _ _, a)).
  simpl. lia.
Defined.

(* ==================== MORE ON PAGINATION ==================== *)

Section FetchBehaviour.
Variable server : Server.
Variable url : string.
Implicit Types (users : list string) (log : list Event) (page fuel : nat).

(** The log of a loop that ends: what was logged before, then the
    requests from the current page on, each but the last followed by its
    pause, then the error line when the last page was refused. *)
Lemma loop_log_shape fuel page users log res log' :
  get_all_pages_loop fuel server url page users log = Some (res, log') →
  ∃ n tail,
    log' = log ++ request_run url page n ++ tail
    ∧ (tail = [] ∨ ∃ code, code ≠ 200 ∧ tail = [Print (ApiError code)]).
Proof.
  revert page users log. induction fuel as [|fuel IH]; intros page users log; simpl.
  - discriminate.
  - destruct (Z.eqb_spec (status_code (server url page)) 200) as [Hok|Hbad]; simpl.
    + destruct (body (server url page)) as [data|].
      * destruct data as [|u data].
        -- intros [= _ <-]. exists 0%nat, []. simpl. split; [done|by left].
        -- destruct (length (u :: data) <? per_page)%nat.
           ++ intros [= _ <-]. exists 0%nat, []. simpl. split; [done|by left].
           ++ intros (n & tail & -> & Htail)%IH. exists (S n), tail.
              split; [|exact Htail]. simpl. rewrite <- !app_assoc. simpl.
              replace (page + 1)%nat with (S page) by lia. done.
      * intros [= _ <-]. exists 0%nat, []. simpl. split; [done|by left].
    + intros [= _ <-]. exists 0%nat, [Print (ApiError (status_code (server url page)))].
      simpl. rewrite <- app_assoc. split; [done|]. right. eauto.
Qed.

(** Every login the loop returns was either there at the start or read
    from a page that answered with status 200. *)
Lemma loop_returns_what_it_read fuel page users log users' log' :
  get_all_pages_loop fuel server url page users log = Some (Returned users', log') →
  ∀ u, u ∈ users' →
    u ∈ users
    ∨ ∃ p data, (page ≤ p)%nat
                ∧ server url p = {| status_code := 200; body := Users data |}
                ∧ u ∈ data.
Proof.
  revert page users log. induction fuel as [|fuel IH]; intros page users log; simpl.
  - discriminate.
  - destruct (server url page) as [code bd] eqn:Hpage. simpl.
    destruct (Z.eqb_spec code 200) as [->|Hcode]; simpl.
    + destruct bd as [data|]; [|discriminate].
      assert (Hhere : ∀ u, u ∈ users ++ data →
        u ∈ users
        ∨ ∃ p data', (page ≤ p)%nat
            ∧ server url p = {| status_code := 200; body := Users data' |}
            ∧ u ∈ data').
      { intros u [Hu|Hu]%elem_of_app; [by left|]. right. by exists page, data. }
      destruct data as [|u0 data].
      * intros [= <- _] u Hu. by left.
      * destruct (length (u0 :: data) <? per_page)%nat.
        -- intros [= <- _]. exact Hhere.
        -- intros Hloop u Hu.
           destruct (IH _ _ _ Hloop u Hu) as [Hin|(p & d & Hp & Hs & Hd)].
           ++ by apply Hhere.
           ++ right. exists p, d. split_and!; [lia|done..].
    + intros [= <- _] u Hu. by left.
Qed.

(** X9.  The log of a fetch that ends is, event by event, the request
    for page 1, a pause of half a second, the request for page 2, a pause,
    and so on up to the request for the last page, with no pause before
    the first request and none after the last; the only thing that can
    follow is the error line of a last page that was refused.  Every login
    the fetch returns was read from one of the pages that answered with
    status 200. *)
Theorem fetch_requests_in_order fuel res log :
  get_all_pages fuel server url = Some (res, log) →
  (∃ n tail,
      log = request_run url 1 n ++ tail
      ∧ (tail = [] ∨ ∃ code, code ≠ 200 ∧ tail = [Print (ApiError code)]))
  ∧ ∀ users u, res = Returned users → u ∈ users →
      ∃ p data, server url p = {| status_code := 200; body := Users data |}
                ∧ u ∈ data.
Proof.
  unfold get_all_pages. intros Hrun. split.
  - apply loop_log_shape in Hrun as (n & tail & Hlog & Htail). by exists n, tail.
  - intros users u -> Hu.
    destruct (loop_returns_what_it_read _ _ _ _ _ _ Hrun u Hu)
      as [Hin|(p & data & _ & Hp & Hd)].
    + by apply not_elem_of_nil in Hin.
    + by exists p, data.
Qed.

(** A server whose pages are all full never lets the loop end. *)
Lemma loop_never_ends fuel page users log :
  (∀ p, ∃ data, server url p = {| status_code := 200; body := Users data |}
                ∧ (per_page ≤ length data)%nat) →
  get_all_pages_loop fuel server url page users log = None.
Proof.
  intros Hfull. revert page users log.
  induction fuel as [|fuel IH]; intros page users log; simpl; [done|].
  destruct (Hfull page) as (data & -> & Hlen). simpl.
  destruct data as [|u data]; [unfold per_page in Hlen; simpl in Hlen; lia|].
  replace (length (u :: data) <? per_page)%nat with false
    by (symmetry; by apply Nat.ltb_ge).
  apply IH.
Qed.

(** X10.  When the server answers every page with status 200 and at least
    [per_page] users, the fetch does not end: whatever number of requests
    it is allowed, it is still asking for the next page. *)
Theorem endless_full_pages :
  (∀ p, ∃ data, server url p = {| status_code := 200; body := Users data |}
                ∧ (per_page ≤ length data)%nat) →
  ∀ fuel, get_all_pages fuel server url = None.
Proof. intros Hfull fuel. by apply loop_never_ends. Qed.

End FetchBehaviour.

Lemma fetch_requests_in_order_witness :
  ∃ n tail,
    [HttpGet "u" 1 per_page; Sleep (1 # 2); HttpGet "u" 2 per_page;
     Print (ApiError 500)]
    = request_run "u" 1 n ++ tail
    ∧ (tail = [] ∨ ∃ code, code ≠ 200 ∧ tail = [Print (ApiError code)]).
Proof.
  apply (fetch_requests_in_order sample_failing_server "u" 2
           (Returned (replicate 100 "x"))).
  reflexivity.
Defined.

Lemma endless_full_pages_witness :
  get_all_pages 50 (λ _ _, {| status_code := 200; body := Users (replicate 100 "x") |})
    "u" = None.
Proof.
  apply endless_full_pages. intros p. exists (replicate 100 "x").
  split; [reflexivity|]. vm_compute. lia.
Defined.

(* ==================== MORE ON THE RUN ==================== *)

Section RunBehaviour.
Context {R : Type}.
Implicit Types (cfg : Settings) (env : Environ) (w : World R) (s : Summary).
Implicit Types (fuel : nat) (followers following : list string).

(** X11.  Without a token, or with an empty one, the run stops at once,
    whatever the server would answer and however long the fetches would
    take: it requests nothing, changes nothing, saves no history and
    sends no report.  With a token, every run that completes has saved
    its history. *)
Theorem token_gate fuel cfg env w :
  (unset (GITHUB_TOKEN env) = true →
     sync_followers fuel cfg env w = Some (Returned stopped_at_token))
  ∧ (∀ s, sync_followers fuel cfg env w = Some (Returned s) →
       (is_Some (sum_saved s) ↔ unset (GITHUB_TOKEN env) = false)).
Proof.
  unfold sync_followers. destruct (unset (GITHUB_TOKEN env)).
  - split; [done|]. intros s [= <-]. simpl. split; [by intros []%is_Some_None|done].
  - split; [done|]. intros s.
    destruct (get_followers fuel (server w) env) as [[[followers|] log1]|];
      try discriminate.
    destruct (get_following fuel (server w) env) as [[[following|] log2]|];
      try discriminate.
    destruct (analyse followers following _ _) as [to_follow to_unfollow].
    intros [= <-]. split; [done|]. intros _. unfold finish.
    destruct (truthy_list _ || truthy_list _); [|by eauto].
    destruct (send_telegram_message _ _ _). simpl. by eauto.
Qed.

(** X12.  When a list page answers with status 200 and a body that cannot
    be read, after any number of full pages, the fetch raises, and so does
    the run: it follows and unfollows nobody, saves nothing and sends
    nothing. *)
Theorem unreadable_page_raises fuel cfg env w (full : list (list string)) :
  unset (GITHUB_TOKEN env) = false →
  Forall (λ data, (per_page ≤ length data)%nat) full →
  (∀ i data, full !! i = Some data →
     server w (followers_url env) (S i)
     = {| status_code := 200; body := Users data |}) →
  server w (followers_url env) (S (length full))
  = {| status_code := 200; body := Malformed |} →
  (length full < fuel)%nat →
  (∃ log, get_followers fuel (server w) env = Some (Raised, log))
  ∧ sync_followers fuel cfg env w = Some Raised.
Proof.
  intros Htoken Hfull Hpages Hlast Hfuel.
  assert (Hfetch : ∃ log, get_followers fuel (server w) env = Some (Raised, log)).
  { unfold get_followers, get_all_pages.
    destruct (loop_through_full_pages (server w) (followers_url env) full 1 [] []
                (fuel - length full) Hfull) as (log' & Hloop & _); [exact Hpages|].
    replace (length full + (fuel - length full))%nat with fuel in Hloop by lia.
    rewrite Hloop.
    replace (fuel - length full)%nat with (S (fuel - length full - 1)) by lia.
    cbn [get_all_pages_loop]. change (1 + length full)%nat with (S (length full)).
    rewrite Hlast. simpl. eauto. }
  split; [exact Hfetch|].
  destruct Hfetch as [log Hfetch]. unfold sync_followers.
  by rewrite Htoken, Hfetch.
Qed.

End RunBehaviour.

Lemma token_gate_witness :
  sync_followers 0 source_settings
    {| GITHUB_TOKEN := Some ""; GITHUB_USERNAME := "me";
       TELEGRAM_BOT_TOKEN := None; TELEGRAM_CHAT_ID := None |}
    sample_world
  = Some (Returned stopped_at_token).
Proof.
  apply (token_gate 0 source_settings
           {| GITHUB_TOKEN := Some ""; GITHUB_USERNAME := "me";
              TELEGRAM_BOT_TOKEN := None; TELEGRAM_CHAT_ID := None |}
           sample_world).
  reflexivity.
Defined.

Lemma unreadable_page_raises_witness :
  (∃ log, get_followers 1 (server sample_unreadable_world) sample_env
          = Some (Raised, log))
  ∧ sync_followers 1 source_settings sample_env sample_unreadable_world = Some Raised.
Proof.
  apply (unreadable_page_raises 1 source_settings sample_env sample_unreadable_world []).
  - reflexivity.
  - constructor.
  - intros i data Hi. discriminate Hi.
  - reflexivity.
  - simpl. lia.
Defined.

Section RunShape.
Context {R : Type}.
Implicit Types (cfg : Settings) (env : Environ) (w : World R) (s : Summary).
Implicit Types (fuel : nat) (followers following : list string) (st : Run R).
Implicit Types (log : list Event).

(** A run with a token whose two fetches return is the final part of the
    script applied to the outcome of the action phase on the candidates. *)
Lemma run_shape fuel cfg env w followers following log1 log2 :
  unset (GITHUB_TOKEN env) = false →
  get_followers fuel (server w) env = Some (Returned followers, log1) →
  get_following fuel (server w) env = Some (Returned following, log2) →
  sync_followers fuel cfg env w
  = Some (Returned
      (finish env w followers following (log1 ++ log2)
         (perform_actions cfg (remote w) (uniform w)
            (to_follow_of followers following
               (load_list_file (WHITELIST_FILE (files w)))
               (load_list_file (BLACKLIST_FILE (files w))))
            (to_unfollow_of followers following
               (load_list_file (WHITELIST_FILE (files w)))
               (load_list_file (BLACKLIST_FILE (files w))))
            (remote_start w)))).
Proof.
  intros Htoken Hf Hg. unfold sync_followers, to_follow_of, to_unfollow_of.
  rewrite Htoken, Hf, Hg. by destruct (analyse followers following _ _).
Qed.

Lemma finish_lists env w followers following log st :
  let s := finish env w followers following log st in
  sum_followed s = followed st ∧ sum_unfollowed s = unfollowed st
  ∧ sum_saved s
    = Some (update_history (load_history (HISTORY_FILE (files w)))
              (followed st) (unfollowed st) (now_isoformat w))
  ∧ sum_message s
    = if truthy_list (followed st) || truthy_list (unfollowed st)
      then Some (format_telegram_report (now_strftime w) (followed st)
                   (unfollowed st) (final_stats followers following st))
      else None.
Proof.
  unfold finish. destruct (truthy_list _ || truthy_list _); [|done].
  by destruct (send_telegram_message _ _ _).
Qed.

Lemma send_calls env (channel : Channel) (message : string) :
  put_urls (send_telegram_message env channel message).2 = []
  ∧ delete_urls (send_telegram_message env channel message).2 = [].
Proof.
  unfold send_telegram_message.
  destruct (unset _ || unset _); [done|]. by destruct (channel _ _ _).
Qed.

Lemma finish_calls env w followers following log st :
  let s := finish env w followers following log st in
  put_urls (sum_events s) = put_urls log ++ put_urls (events st)
  ∧ delete_urls (sum_events s) = delete_urls log ++ delete_urls (events st).
Proof.
  unfold finish. destruct (truthy_list _ || truthy_list _).
  - destruct (send_telegram_message env (channel w) _) as [delivered sent] eqn:Hsend.
    simpl. rewrite !put_urls_app, !delete_urls_app.
    pose proof (send_calls env (channel w)
      (format_telegram_report (now_strftime w) (followed st) (unfollowed st)
         {| Stats.followers := Z.of_nat (length followers);
            Stats.following :=
              Z.of_nat (length following) + Z.of_nat (length (followed st))
              - Z.of_nat (length (unfollowed st)) |})) as [Hp Hd].
    rewrite Hsend in Hp, Hd. simpl in Hp, Hd. by rewrite Hp, Hd, !app_nil_r.
  - simpl. by rewrite !put_urls_app, !delete_urls_app.
Qed.

(** Fetching changes nothing on the remote side. *)
Lemma get_all_pages_loop_calls (server : Server) (url : string) fuel (page : nat)
    (users : list string) log res log' :
  get_all_pages_loop fuel server url page users log = Some (res, log') →
  put_urls log' = put_urls log ∧ delete_urls log' = delete_urls log.
Proof.
  revert page users log. induction fuel as [|fuel IH]; intros page users log; simpl.
  - discriminate.
  - destruct (negb (status_code (server url page) =? 200)).
    + intros [= _ <-]. rewrite !put_urls_app, !delete_urls_app. simpl.
      by rewrite !app_nil_r.
    + destruct (body (server url page)) as [data|].
      * destruct data as [|u data].
        -- intros [= _ <-]. rewrite !put_urls_app, !delete_urls_app. simpl.
           by rewrite !app_nil_r.
        -- destruct (length (u :: data) <? per_page)%nat.
           ++ intros [= _ <-]. rewrite !put_urls_app, !delete_urls_app. simpl.
              by rewrite !app_nil_r.
           ++ intros [Hp Hd]%IH. rewrite Hp, Hd, !put_urls_app, !delete_urls_app.
              simpl. by rewrite !app_nil_r.
      * intros [= _ <-]. rewrite !put_urls_app, !delete_urls_app. simpl.
        by rewrite !app_nil_r.
Qed.

Lemma get_all_pages_calls (server : Server) (url : string) fuel res log :
  get_all_pages fuel server url = Some (res, log) →
  put_urls log = [] ∧ delete_urls log = [].
Proof. unfold get_all_pages. apply get_all_pages_loop_calls. Qed.

End RunShape.

Section RunSafety.
Context {R : Type}.
Implicit Types (cfg : Settings) (env : Environ) (w : World R) (s : Summary).
Implicit Types (fuel : nat) (followers following : list string) (st : Run R).
Implicit Types (log : list Event) (u url : string).

Lemma elem_of_take_elem {A} (x : A) (k : nat) (l : list A) : x ∈ take k l → x ∈ l.
Proof. apply sublist_subseteq, sublist_take. Qed.

(** X13.  In a run that completes, every [PUT] goes to a follower that is
    not on the blacklist file and, up to case, is not followed yet, and
    every [DELETE] goes to a followed account that is not on the whitelist
    file and, up to case, is not a follower; the followed and unfollowed
    lists hold such accounts only. *)
Theorem run_respects_policy fuel cfg env w s followers following log1 log2 :
  get_followers fuel (server w) env = Some (Returned followers, log1) →
  get_following fuel (server w) env = Some (Returned following, log2) →
  sync_followers fuel cfg env w = Some (Returned s) →
  let whitelist := load_list_file (WHITELIST_FILE (files w)) in
  let blacklist := load_list_file (BLACKLIST_FILE (files w)) in
  let may_follow u :=
    u ∈ followers ∧ lower u ∉ blacklist ∧ lower u ∉ (lower <$> following) in
  let may_unfollow u :=
    u ∈ following ∧ lower u ∉ whitelist ∧ lower u ∉ (lower <$> followers) in
  (∀ url, url ∈ put_urls (sum_events s) → ∃ u, url = action_url u ∧ may_follow u)
  ∧ (∀ url, url ∈ delete_urls (sum_events s) →
       ∃ u, url = action_url u ∧ may_unfollow u)
  ∧ (∀ u, u ∈ sum_followed s → may_follow u)
  ∧ (∀ u, u ∈ sum_unfollowed s → may_unfollow u).
Proof.
  intros Hf Hg Hrun whitelist blacklist may_follow may_unfollow.
  destruct (unset (GITHUB_TOKEN env)) eqn:Htoken.
  { unfold sync_followers in Hrun. rewrite Htoken in Hrun.
    injection Hrun as <-. simpl.
    split_and!; intros x Hx; by apply not_elem_of_nil in Hx. }
  rewrite (run_shape fuel cfg env w followers following log1 log2 Htoken Hf Hg) in Hrun.
  injection Hrun as <-.
  fold whitelist blacklist.
  set (to_follow := to_follow_of followers following whitelist blacklist).
  set (to_unfollow := to_unfollow_of followers following whitelist blacklist).
  set (out := perform_actions cfg (remote w) (uniform w) to_follow to_unfollow
                (remote_start w)).
  destruct (finish_lists env w followers following (log1 ++ log2) out)
    as (-> & -> & _).
  destruct (finish_calls env w followers following (log1 ++ log2) out) as (-> & ->).
  apply get_all_pages_calls in Hf as [Hf1 Hf2], Hg as [Hg1 Hg2].
  rewrite !put_urls_app, !delete_urls_app, Hf1, Hf2, Hg1, Hg2. simpl.
  destruct (follow_loop_prefix cfg (remote w) (uniform w) to_follow
              (start (remote_start w)))
    as (k1 & done1 & Hput1 & Hdel1 & Hfd1 & Hud1 & Hsub1).
  destruct (unfollow_loop_prefix cfg (remote w) (uniform w) to_unfollow
              (follow_loop cfg (remote w) (uniform w) to_follow
                 (start (remote_start w))))
    as (k2 & done2 & Hdel2 & Hput2 & Hud2 & Hfd2 & Hsub2).
  change (unfollow_loop cfg (remote w) (uniform w) to_unfollow
            (follow_loop cfg (remote w) (uniform w) to_follow
               (start (remote_start w)))) with out in *.
  rewrite Hput2, Hdel2, Hfd2, Hud2, Hput1, Hdel1, Hfd1, Hud1. simpl.
  assert (Hmay_f : ∀ u, u ∈ to_follow → may_follow u).
  { intros u. unfold to_follow. rewrite to_follow_filter.
    intros [[H1 H2] H3]%list_elem_of_filter. by split_and!. }
  assert (Hmay_u : ∀ u, u ∈ to_unfollow → may_unfollow u).
  { intros u. unfold to_unfollow. rewrite to_unfollow_filter.
    intros [[H1 H2] H3]%list_elem_of_filter. by split_and!. }
  split_and!.
  - intros url (u & -> & Hu)%list_elem_of_fmap. exists u. split; [done|].
    by apply Hmay_f, (elem_of_take_elem u k1).
  - intros url (u & -> & Hu)%list_elem_of_fmap. exists u. split; [done|].
    by apply Hmay_u, (elem_of_take_elem u k2).
  - intros u Hu. apply Hmay_f, (elem_of_take_elem u k1).
    by apply (sublist_subseteq _ _ Hsub1).
  - intros u Hu. apply Hmay_u, (elem_of_take_elem u k2).
    by apply (sublist_subseteq _ _ Hsub2).
Qed.

End RunSafety.

Lemma run_respects_policy_witness :
  ∃ s, sync_followers 3 source_settings sample_env sample_world = Some (Returned s)
       ∧ ∀ u, u ∈ sum_followed s →
           u ∈ ["alice"]
           ∧ lower u ∉ load_list_file (BLACKLIST_FILE (files sample_world))
           ∧ lower u ∉ (lower <$> []).
Proof.
  destruct (sync_followers 3 source_settings sample_env sample_world)
    as [[s|]|] eqn:Hrun; try (vm_compute in Hrun; discriminate Hrun).
  exists s. split; [reflexivity|].
  destruct (get_followers 3 (server sample_world) sample_env)
    as [[[followers|] log1]|] eqn:Hf; try (vm_compute in Hf; discriminate Hf).
  destruct (get_following 3 (server sample_world) sample_env)
    as [[[following|] log2]|] eqn:Hg; try (vm_compute in Hg; discriminate Hg).
  destruct (run_respects_policy 3 source_settings sample_env sample_world s
              followers following log1 log2 Hf Hg Hrun) as (_ & _ & Hfollowed & _).
  assert (followers = ["alice"]) as <- by (vm_compute in Hf; congruence).
  assert (following = []) as <- by (vm_compute in Hg; congruence).
  exact Hfollowed.
Defined.

Section RunEdges.
Context {R : Type}.
Implicit Types (cfg : Settings) (env : Environ) (w : World R) (s : Summary).
Implicit Types (fuel : nat) (followers following : list string) (st : Run R).
Implicit Types (log : list Event) (u : string).

Lemma filter_none {A} (P : A → Prop) `{!∀ x, Decision (P x)} (l : list A) :
  (∀ x, x ∈ l → ¬ P x) → filter P l = [].
Proof.
  intros Hno. apply elem_of_nil_inv. intros x [HP Hx]%list_elem_of_filter.
  by apply (Hno x).
Qed.

(** X14.  When the followers list fails on its very first page, the run
    goes on with no follower at all: it follows nobody, and every followed
    account that is not on the whitelist becomes an unfollow candidate.
    If the service accepts the calls, the first [MAX_ACTIONS_PER_RUN] of
    them are unfollowed. *)
Theorem followers_outage_unfollows fuel cfg env w following log2 :
  unset (GITHUB_TOKEN env) = false →
  (0 < fuel)%nat →
  status_code (server w (followers_url env) 1%nat) ≠ 200 →
  get_following fuel (server w) env = Some (Returned following, log2) →
  ∃ s, sync_followers fuel cfg env w = Some (Returned s)
       ∧ sum_followed s = []
       ∧ put_urls (sum_events s) = []
       ∧ (always_accepts (remote w) →
          sum_unfollowed s
          = take (MAX_ACTIONS_PER_RUN cfg)
              (filter (λ u, lower u ∉ load_list_file (WHITELIST_FILE (files w)))
                 following)).
Proof.
  intros Htoken Hfuel Hstatus Hg.
  assert (Hf : ∃ log1, get_followers fuel (server w) env = Some (Returned [], log1)).
  { unfold get_followers, get_all_pages. destruct fuel as [|fuel]; [lia|].
    simpl. apply Z.eqb_neq in Hstatus. rewrite Hstatus. simpl. eauto. }
  destruct Hf as [log1 Hf].
  eexists. split; [by apply (run_shape fuel cfg env w [] following log1 log2)|].
  set (whitelist := load_list_file (WHITELIST_FILE (files w))).
  set (blacklist := load_list_file (BLACKLIST_FILE (files w))).
  assert (Hnone : to_follow_of [] following whitelist blacklist = [])
    by (by rewrite to_follow_filter).
  assert (Hall : to_unfollow_of [] following whitelist blacklist
                 = filter (λ u, lower u ∉ whitelist) following).
  { rewrite to_unfollow_filter. apply list_filter_iff. intros u. simpl.
    split; [by intros [_ ?]|]. intros ?. split; [apply not_elem_of_nil|done]. }
  rewrite Hnone, Hall.
  set (to_unfollow := filter (λ u, lower u ∉ whitelist) following).
  set (out := perform_actions cfg (remote w) (uniform w) [] to_unfollow (remote_start w)).
  destruct (finish_lists env w [] following (log1 ++ log2) out) as (-> & -> & _).
  destruct (finish_calls env w [] following (log1 ++ log2) out) as (-> & _).
  apply get_all_pages_calls in Hf as [Hf1 _], Hg as [Hg1 _].
  rewrite put_urls_app, Hf1, Hg1. simpl.
  destruct (unfollow_loop_prefix cfg (remote w) (uniform w) to_unfollow
              (start (remote_start w)))
    as (k & done & _ & Hput & _ & Hfd & _).
  change (unfollow_loop cfg (remote w) (uniform w) to_unfollow
            (start (remote_start w))) with out in Hput, Hfd.
  split_and!; [exact Hfd|exact Hput|].
  intros Hok.
  destruct (unfollow_loop_accepted cfg (remote w) (uniform w) to_unfollow
              (start (remote_start w)) Hok) as (Hu & _).
  change (unfollow_loop cfg (remote w) (uniform w) to_unfollow
            (start (remote_start w))) with out in Hu.
  rewrite Hu. simpl. by rewrite Nat.sub_0_r.
Qed.

(** X15.  When followers and following are the same identifiers up to
    case, the run follows and unfollows nobody, whatever the two policy
    files hold: it calls the service for the two lists only, sends no
    report, and saves the history with nothing appended and [last_run]
    set. *)
Theorem synced_run_is_quiet fuel cfg env w followers following log1 log2 :
  unset (GITHUB_TOKEN env) = false →
  get_followers fuel (server w) env = Some (Returned followers, log1) →
  get_following fuel (server w) env = Some (Returned following, log2) →
  lower_set followers = lower_set following →
  sync_followers fuel cfg env w
  = Some (Returned
      {| sum_followed := []; sum_unfollowed := [];
         sum_events := log1 ++ log2;
         sum_saved :=
           Some (update_history (load_history (HISTORY_FILE (files w))) [] []
                   (now_isoformat w));
         sum_message := None; sum_delivered := None |}).
Proof.
  intros Htoken Hf Hg Hsame.
  rewrite (run_shape fuel cfg env w followers following log1 log2 Htoken Hf Hg).
  set (whitelist := load_list_file (WHITELIST_FILE (files w))).
  set (blacklist := load_list_file (BLACKLIST_FILE (files w))).
  assert (Hnone : to_follow_of followers following whitelist blacklist = []).
  { rewrite to_follow_filter. apply filter_none. intros u Hu [Hnot _].
    apply Hnot. rewrite <- elem_of_lower_set, <- Hsame, elem_of_lower_set.
    by apply list_elem_of_fmap_2. }
  assert (Hnone' : to_unfollow_of followers following whitelist blacklist = []).
  { rewrite to_unfollow_filter. apply filter_none. intros u Hu [Hnot _].
    apply Hnot. rewrite <- elem_of_lower_set, Hsame, elem_of_lower_set.
    by apply list_elem_of_fmap_2. }
  rewrite Hnone, Hnone'. unfold perform_actions, finish. simpl.
  by rewrite app_nil_r.
Qed.

End RunEdges.

Lemma followers_outage_unfollows_witness :
  ∃ s, sync_followers 3 source_settings sample_env sample_outage_world
       = Some (Returned s)
       ∧ sum_followed s = []
       ∧ put_urls (sum_events s) = []
       ∧ sum_unfollowed s = ["alice"; "bob"].
Proof.
  destruct (get_following 3 (server sample_outage_world) sample_env)
    as [[[following|] log2]|] eqn:Hg; try (vm_compute in Hg; discriminate Hg).
  destruct (followers_outage_unfollows 3 source_settings sample_env
              sample_outage_world following log2)
    as (s & Hrun & Hfollowed & Hput & Hunfollowed).
  - reflexivity.
  - lia.
  - vm_compute. discriminate.
  - exact Hg.
  - exists s. split_and!; [exact Hrun|exact Hfollowed|exact Hput|].
    rewrite Hunfollowed by (split; reflexivity).
    assert (following = ["alice"; "bob"]) as -> by (vm_compute in Hg; congruence).
    vm_compute. reflexivity.
Defined.

Lemma synced_run_is_quiet_witness :
  ∃ log,
    sync_followers 3 source_settings sample_env sample_synced_world
    = Some (Returned
        {| sum_followed := []; sum_unfollowed := [];
           sum_events := log;
           sum_saved :=
             Some (update_history
                     (load_history (HISTORY_FILE (files sample_synced_world))) [] []
                     (now_isoformat sample_synced_world));
           sum_message := None; sum_delivered := None |}).
Proof.
  destruct (get_followers 3 (server sample_synced_world) sample_env)
    as [[[followers|] log1]|] eqn:Hf; try (vm_compute in Hf; discriminate Hf).
  destruct (get_following 3 (server sample_synced_world) sample_env)
    as [[[following|] log2]|] eqn:Hg; try (vm_compute in Hg; discriminate Hg).
  exists (log1 ++ log2).
  apply (synced_run_is_quiet 3 source_settings sample_env sample_synced_world
           followers following log1 log2); [reflexivity|exact Hf|exact Hg|].
  assert (followers = ["Alice"]) as -> by (vm_compute in Hf; congruence).
  assert (following = ["alice"]) as -> by (vm_compute in Hg; congruence).
  reflexivity.
Defined.

Section RunRecords.
Context {R : Type}.
Implicit Types (cfg : Settings) (env : Environ) (w : World R) (s : Summary).
Implicit Types (fuel : nat) (followers following : list string) (st : Run R).
Implicit Types (log : list Event) (u now : string) (h : History).

(** The accumulated report, part by part. *)
Lemma format_layout now followed unfollowed (stats : Stats.t) :
  format_telegram_report now followed unfollowed stats
  = join [report_header now stats;
          report_section followed_title followed;
          report_section unfollowed_title unfollowed;
          match followed, unfollowed with
          | [], [] => no_changes_line
          | _, _ => ""
          end].
Proof.
  unfold format_telegram_report.
  destruct followed as [|f followed]; destruct unfollowed as [|x unfollowed];
    cbv beta iota zeta; rewrite ?report_section_cons;
    unfold report_header; cbn [join report_section];
    by rewrite ?string_app_assoc, ?string_app_nil_r.
Qed.

(** X16.  The report that a run sends never carries the no-changes line:
    it is the header and the two sections, one of them at least not
    empty.  Its followers count is the number of followers fetched, and
    its following count is the number fetched plus the follows minus the
    unfollows of the run, which is never less than the number of
    follows. *)
Theorem report_of_a_run fuel cfg env w s followers following log1 log2 m :
  get_followers fuel (server w) env = Some (Returned followers, log1) →
  get_following fuel (server w) env = Some (Returned following, log2) →
  sync_followers fuel cfg env w = Some (Returned s) →
  sum_message s = Some m →
  ∃ stats,
    m = join [report_header (now_strftime w) stats;
               report_section followed_title (sum_followed s);
               report_section unfollowed_title (sum_unfollowed s)]
    ∧ (sum_followed s ≠ [] ∨ sum_unfollowed s ≠ [])
    ∧ Stats.followers stats = Z.of_nat (length followers)
    ∧ Stats.following stats
      = Z.of_nat (length following) + Z.of_nat (length (sum_followed s))
        - Z.of_nat (length (sum_unfollowed s))
    ∧ Z.of_nat (length (sum_followed s)) ≤ Stats.following stats.
Proof.
  intros Hf Hg Hrun Hm.
  destruct (unset (GITHUB_TOKEN env)) eqn:Htoken.
  { unfold sync_followers in Hrun. rewrite Htoken in Hrun.
    injection Hrun as <-. discriminate Hm. }
  rewrite (run_shape fuel cfg env w followers following log1 log2 Htoken Hf Hg) in Hrun.
  injection Hrun as <-.
  set (whitelist := load_list_file (WHITELIST_FILE (files w))) in *.
  set (blacklist := load_list_file (BLACKLIST_FILE (files w))) in *.
  set (to_follow := to_follow_of followers following whitelist blacklist) in *.
  set (to_unfollow := to_unfollow_of followers following whitelist blacklist) in *.
  set (out := perform_actions cfg (remote w) (uniform w) to_follow to_unfollow
                (remote_start w)) in *.
  destruct (finish_lists env w followers following (log1 ++ log2) out)
    as (Hfd & Hud & _ & Hmsg).
  rewrite Hm in Hmsg. rewrite Hfd, Hud.
  destruct (truthy_list (followed out) || truthy_list (unfollowed out)) eqn:Hacted;
    [|discriminate Hmsg].
  injection Hmsg as ->. apply acted_spec in Hacted.
  exists (final_stats followers following out).
  assert (Hlen : (length (unfollowed out) ≤ length following)%nat).
  { destruct (unfollow_loop_prefix cfg (remote w) (uniform w) to_unfollow
                (follow_loop cfg (remote w) (uniform w) to_follow
                   (start (remote_start w))))
      as (k & done & _ & _ & Hu & _ & Hsub).
    destruct (follow_loop_prefix cfg (remote w) (uniform w) to_follow
                (start (remote_start w))) as (_ & _ & _ & _ & _ & Hu0 & _).
    change (unfollowed out) with
      (unfollowed (unfollow_loop cfg (remote w) (uniform w) to_unfollow
         (follow_loop cfg (remote w) (uniform w) to_follow (start (remote_start w))))).
    rewrite Hu, Hu0. simpl.
    apply sublist_length in Hsub. rewrite length_take in Hsub.
    assert (length to_unfollow ≤ length following)%nat.
    { unfold to_unfollow. rewrite to_unfollow_filter. apply length_filter. }
    lia. }
  split_and!; [|done|done|done|simpl; lia].
  rewrite format_layout. cbn [join].
  destruct (followed out), (unfollowed out);
    [by destruct Hacted| | |]; by rewrite ?string_app_nil_r.
Qed.

Lemma update_history_keeps h (followed unfollowed : list string) now :
  (length followed ≤ 1000)%nat → (length unfollowed ≤ 1000)%nat →
  let h' := update_history h followed unfollowed now in
  (∃ older, follows h' = older ++ (stamped now <$> followed))
  ∧ (∃ older, unfollows h' = older ++ (stamped now <$> unfollowed))
  ∧ last_run h' = Some now.
Proof.
  intros Hf Hu. unfold update_history, last_slice. simpl.
  rewrite !append_records_app, !length_app, !length_fmap.
  fold (stamped now). split_and!; [| |done].
  - exists (drop (length (follows h) + length followed - 1000) (follows h)).
    apply drop_app_le. lia.
  - exists (drop (length (unfollows h) + length unfollowed - 1000) (unfollows h)).
    apply drop_app_le. lia.
Qed.

(** X17.  With a cap of at most 1000, the history that a run saves ends
    with one record for each account it followed and for each account it
    unfollowed, in order and stamped with the time of the run, which is
    also its [last_run]: the truncation never cuts into the actions of
    the run itself. *)
Theorem run_actions_are_recorded fuel cfg env w s h :
  (MAX_ACTIONS_PER_RUN cfg ≤ 1000)%nat →
  sync_followers fuel cfg env w = Some (Returned s) →
  sum_saved s = Some h →
  (∃ older, follows h = older ++ (stamped (now_isoformat w) <$> sum_followed s))
  ∧ (∃ older, unfollows h = older ++ (stamped (now_isoformat w) <$> sum_unfollowed s))
  ∧ last_run h = Some (now_isoformat w).
Proof.
  intros Hcap. unfold sync_followers.
  destruct (unset (GITHUB_TOKEN env)); [by intros [= <-]|].
  destruct (get_followers fuel (server w) env) as [[[followers|] log1]|];
    try discriminate.
  destruct (get_following fuel (server w) env) as [[[following|] log2]|];
    try discriminate.
  destruct (analyse followers following _ _) as [to_follow to_unfollow].
  intros [= <-].
  set (out := perform_actions cfg (remote w) (uniform w) to_follow to_unfollow
                (remote_start w)).
  destruct (finish_lists env w followers following (log1 ++ log2) out)
    as (-> & -> & -> & _).
  intros [= <-].
  destruct (perform_actions_spec cfg (remote w) (uniform w) to_follow to_unfollow
              (remote_start w)) as ((H1 & H2 & _) & _).
  fold out in H1, H2.
  apply update_history_keeps; lia.
Qed.

End RunRecords.

Lemma report_of_a_run_witness :
  ∃ s m, sync_followers 3 source_settings sample_env sample_world = Some (Returned s)
         ∧ sum_message s = Some m
         ∧ ∃ stats,
             m = join [report_header (now_strftime sample_world) stats;
                        report_section followed_title (sum_followed s);
                        report_section unfollowed_title (sum_unfollowed s)]
             ∧ Stats.following stats = 1.
Proof.
  destruct (sync_followers 3 source_settings sample_env sample_world)
    as [[s|]|] eqn:Hrun; try (vm_compute in Hrun; discriminate Hrun).
  destruct (sum_message s) as [m|] eqn:Hm;
    [|vm_compute in Hrun; injection Hrun as <-; discriminate Hm].
  exists s, m. split; [reflexivity|]. split; [exact Hm|].
  destruct (get_followers 3 (server sample_world) sample_env)
    as [[[followers|] log1]|] eqn:Hf; try (vm_compute in Hf; discriminate Hf).
  destruct (get_following 3 (server sample_world) sample_env)
    as [[[following|] log2]|] eqn:Hg; try (vm_compute in Hg; discriminate Hg).
  destruct (report_of_a_run 3 source_settings sample_env sample_world s
              followers following log1 log2 m Hf Hg Hrun Hm)
    as (stats & Hlayout & _ & _ & Hcount & _).
  exists stats. split; [exact Hlayout|].
  rewrite Hcount.
  assert (following = []) as -> by (vm_compute in Hg; congruence).
  vm_compute in Hrun. injection Hrun as <-. reflexivity.
Defined.

Lemma run_actions_are_recorded_witness :
  ∃ s h, sync_followers 3 source_settings sample_env sample_world = Some (Returned s)
         ∧ sum_saved s = Some h
         ∧ last_run h = Some (now_isoformat sample_world)
         ∧ ∃ older,
             follows h = older ++ (stamped (now_isoformat sample_world) <$> sum_followed s).
Proof.
  destruct (sync_followers 3 source_settings sample_env sample_world)
    as [[s|]|] eqn:Hrun; try (vm_compute in Hrun; discriminate Hrun).
  destruct (sum_saved s) as [h|] eqn:Hh;
    [|vm_compute in Hrun; injection Hrun as <-; discriminate Hh].
  exists s, h. split; [reflexivity|]. split; [exact Hh|].
  destruct (run_actions_are_recorded 3 source_settings sample_env sample_world s h)
    as (Hfollows & _ & Hlast); [simpl; lia|exact Hrun|exact Hh|].
  split; [exact Hlast|exact Hfollows].
Defined.

(* ==================== MORE ON THE NOTIFICATION ==================== *)

Section SendBehaviour.
Implicit Types (env : Environ) (channel : Channel) (message : string).

(** X18.  The send reports success exactly when both Telegram variables
    are set and not empty and the bot API answers the post with status
    200.  It posts at most once, to the address built from the token, and
    an exception of the post is caught: the send then prints the error
    and returns [False]. *)
Theorem send_succeeds_iff env channel message :
  let url :=
    "https://api.telegram.org/bot" +:+ default "" (TELEGRAM_BOT_TOKEN env)
      +:+ "/sendMessage" in
  let chat_id := default "" (TELEGRAM_CHAT_ID env) in
  ((send_telegram_message env channel message).1 = true
   ↔ telegram_configured env = true
     ∧ channel url chat_id message = PostStatus 200)
  ∧ (telegram_configured env = true → channel url chat_id message = PostRaises →
     send_telegram_message env channel message
     = (false, [HttpPost url chat_id message; Print TelegramError]))
  ∧ (length (List.filter is_post (send_telegram_message env channel message).2) ≤ 1)%nat.
Proof.
  intros url chat_id. unfold telegram_configured, send_telegram_message.
  fold url chat_id.
  destruct (unset (TELEGRAM_BOT_TOKEN env) || unset (TELEGRAM_CHAT_ID env)); simpl.
  - split_and!; [|done|lia]. split; [done|]. by intros [? _].
  - destruct (channel url chat_id message) as [code|] eqn:Hpost; simpl.
    + split_and!; [|done|lia]. split.
      * intros ->%Z.eqb_eq. done.
      * intros [_ [= ->]]. done.
    + split_and!; [|done|lia]. split; [done|]. by intros [_ ?].
Qed.

End SendBehaviour.

Lemma send_succeeds_iff_witness :
  send_telegram_message
    {| GITHUB_TOKEN := None; GITHUB_USERNAME := "me";
       TELEGRAM_BOT_TOKEN := Some "t"; TELEGRAM_CHAT_ID := Some "42" |}
    (λ _ _ _, PostRaises) "hello"
  = (false,
     [HttpPost "https://api.telegram.org/bott/sendMessage" "42" "hello";
      Print TelegramError]).
Proof.
  apply (send_succeeds_iff
           {| GITHUB_TOKEN := None; GITHUB_USERNAME := "me";
              TELEGRAM_BOT_TOKEN := Some "t"; TELEGRAM_CHAT_ID := Some "42" |}
           (λ _ _ _, PostRaises) "hello"); reflexivity.
Defined.

(* ==================== THE NOTIFICATION OF A RUN ==================== *)

Section RunNotification.
Context {R : Type}.
Implicit Types (cfg : Settings) (env : Environ) (w : World R) (s : Summary).
Implicit Types (fuel : nat) (followers following : list string) (st : Run R).
Implicit Types (log t : list Event) (message : string).

Lemma send_entries_app t1 t2 :
  send_entries (t1 ++ t2) = (send_entries t1 + send_entries t2)%nat.
Proof. unfold send_entries. by rewrite List.filter_app, length_app. Qed.

(** Fetching never looks like a send. *)
Lemma get_all_pages_loop_send_entries (server : Server) (url : string) fuel
    (page : nat) (users : list string) log res log' :
  get_all_pages_loop fuel server url page users log = Some (res, log') →
  send_entries log' = send_entries log.
Proof.
  revert page users log. induction fuel as [|fuel IH]; intros page users log; simpl.
  - discriminate.
  - destruct (negb (status_code (server url page) =? 200)).
    + intros [= _ <-]. rewrite !send_entries_app. unfold send_entries at 2 3.
      simpl. lia.
    + destruct (body (server url page)) as [data|].
      * destruct data as [|u data].
        -- intros [= _ <-]. rewrite send_entries_app. unfold send_entries at 2.
           simpl. lia.
        -- destruct (length (u :: data) <? per_page)%nat.
           ++ intros [= _ <-]. rewrite send_entries_app. unfold send_entries at 2.
              simpl. lia.
           ++ intros H%IH. rewrite H, !send_entries_app.
              unfold send_entries at 2 3. simpl. lia.
      * intros [= _ <-]. rewrite send_entries_app. unfold send_entries at 2.
        simpl. lia.
Qed.

Lemma get_all_pages_send_entries (server : Server) (url : string) fuel res log :
  get_all_pages fuel server url = Some (res, log) → send_entries log = 0%nat.
Proof. unfold get_all_pages. apply get_all_pages_loop_send_entries. Qed.

(** Neither does the action phase. *)
Lemma follow_loop_send_entries cfg (remote : Remote R) uniform (l : list string) st :
  send_entries (events (follow_loop cfg remote uniform l st)) = send_entries (events st).
Proof.
  revert st. induction l as [|user rest IH]; intros st; simpl; [done|].
  destruct (MAX_ACTIONS_PER_RUN cfg <=? action_count st)%nat.
  - simpl. rewrite send_entries_app. unfold send_entries at 2. simpl. lia.
  - unfold follow_user.
    destruct (put_following remote user (remote_state st)) as [code r'].
    rewrite IH. simpl. rewrite send_entries_app. unfold send_entries at 2.
    simpl. lia.
Qed.

Lemma unfollow_loop_send_entries cfg (remote : Remote R) uniform (l : list string) st :
  send_entries (events (unfollow_loop cfg remote uniform l st))
  = send_entries (events st).
Proof.
  revert st. induction l as [|user rest IH]; intros st; simpl; [done|].
  destruct (MAX_ACTIONS_PER_RUN cfg <=? action_count st)%nat.
  - simpl. rewrite send_entries_app. unfold send_entries at 2. simpl. lia.
  - unfold unfollow_user.
    destruct (delete_following remote user (remote_state st)) as [code r'].
    rewrite IH. simpl. rewrite send_entries_app. unfold send_entries at 2.
    simpl. lia.
Qed.

Lemma perform_actions_send_entries cfg (remote : Remote R) uniform
    (to_follow to_unfollow : list string) (r : R) :
  send_entries (events (perform_actions cfg remote uniform to_follow to_unfollow r))
  = 0%nat.
Proof.
  unfold perform_actions.
  by rewrite unfollow_loop_send_entries, follow_loop_send_entries.
Qed.

(** Every call of the send leaves exactly one entry, and, configured,
    exactly one post, to the address of the bot, with the chat id and the
    text it was given. *)
Lemma send_leaves_one_entry env (channel : Channel) message :
  send_entries (send_telegram_message env channel message).2 = 1%nat
  ∧ List.filter is_post (send_telegram_message env channel message).2
    = if telegram_configured env
      then [HttpPost (telegram_url env) (default "" (TELEGRAM_CHAT_ID env)) message]
      else [].
Proof.
  unfold send_telegram_message, telegram_configured, telegram_url.
  destruct (unset (TELEGRAM_BOT_TOKEN env) || unset (TELEGRAM_CHAT_ID env));
    simpl; [done|].
  by destruct (channel _ _ _).
Qed.

(** The trace and the delivery flag that the final part of the script
    leaves: the send is called, with the formatted report, exactly in the
    branch taken when a list is not empty. *)
Lemma finish_events env w followers following log st :
  let s := finish env w followers following log st in
  let message :=
    format_telegram_report (now_strftime w) (followed st) (unfollowed st)
      (final_stats followers following st) in
  if truthy_list (followed st) || truthy_list (unfollowed st)
  then sum_events s
       = (log ++ events st) ++ (send_telegram_message env (channel w) message).2
       ∧ sum_delivered s = Some (send_telegram_message env (channel w) message).1
       ∧ sum_message s = Some message
  else sum_events s = log ++ events st
       ∧ sum_delivered s = None ∧ sum_message s = None.
Proof.
  unfold finish, final_stats.
  destruct (truthy_list (followed st) || truthy_list (unfollowed st)); [|done].
  destruct (send_telegram_message env (channel w) _) as [delivered sent].
  simpl. by rewrite app_assoc.
Qed.

(** C8.  In a run that completes, [send_telegram_message] is called once
    when a follow or an unfollow was realized and not at all otherwise:
    the trace shows one send entry in the first case and none in the
    second.  When it is called, it is called last, with the formatted
    report of the run, and its events end the trace.  With the channel
    configured the trace then holds exactly one post, of that report, to
    the address of the bot and the configured chat.  With the bot token or
    the chat id unset or empty, the send prints its warning, posts
    nothing, never consults the channel and returns [False], and the run
    completes with that warning as its last event. *)
Theorem notification_policy fuel cfg env w s :
  sync_followers fuel cfg env w = Some (Returned s) →
  let acted := sum_followed s ≠ [] ∨ sum_unfollowed s ≠ [] in
  (send_entries (sum_events s) = 1%nat ↔ acted)
  ∧ (send_entries (sum_events s) = 0%nat ↔ ¬ acted)
  ∧ (acted →
     ∃ message before stats,
       message = format_telegram_report (now_strftime w) (sum_followed s)
                   (sum_unfollowed s) stats
       ∧ sum_message s = Some message
       ∧ sum_events s = before ++ (send_telegram_message env (channel w) message).2
       ∧ send_entries before = 0%nat
       ∧ List.filter is_post before = []
       ∧ sum_delivered s = Some (send_telegram_message env (channel w) message).1
       ∧ (telegram_configured env = true →
          List.filter is_post (sum_events s)
          = [HttpPost (telegram_url env) (default "" (TELEGRAM_CHAT_ID env)) message])
       ∧ (telegram_configured env = false →
          sum_events s = before ++ [Print TelegramNotConfigured]
          ∧ sum_delivered s = Some false))
  ∧ (¬ acted →
     sum_message s = None ∧ sum_delivered s = None
     ∧ List.filter is_post (sum_events s) = [])
  ∧ (telegram_configured env = false →
     List.filter is_post (sum_events s) = []
     ∧ ∀ (channel : Channel) message,
         send_telegram_message env channel message
         = (false, [Print TelegramNotConfigured])).
Proof.
  intros Hrun acted. unfold sync_followers in Hrun.
  destruct (unset (GITHUB_TOKEN env)).
  { injection Hrun as <-. unfold acted. simpl.
    split_and!; try done.
    - split; [discriminate|]. intros [|]; congruence.
    - split; [|done]. intros _ [|]; congruence.
    - intros [|]; congruence.
    - intros Hconf. split; [done|]. intros. by apply send_unconfigured. }
  destruct (get_followers fuel (server w) env) as [[[followers|] log1]|] eqn:Hf;
    try discriminate.
  destruct (get_following fuel (server w) env) as [[[following|] log2]|] eqn:Hg;
    try discriminate.
  destruct (analyse followers following _ _) as [to_follow to_unfollow].
  injection Hrun as <-.
  set (out := perform_actions cfg (remote w) (uniform w) to_follow to_unfollow
                (remote_start w)) in *.
  assert (Hlog : send_entries (log1 ++ log2) = 0%nat
                 ∧ List.filter is_post (log1 ++ log2) = []).
  { rewrite send_entries_app, posts_app.
    rewrite (get_all_pages_send_entries _ _ _ _ _ Hf).
    rewrite (get_all_pages_send_entries _ _ _ _ _ Hg).
    rewrite (get_all_pages_posts _ _ _ _ _ Hf).
    by rewrite (get_all_pages_posts _ _ _ _ _ Hg). }
  destruct Hlog as [Hlog_e Hlog_p].
  assert (Hout_e : send_entries (events out) = 0%nat)
    by apply perform_actions_send_entries.
  assert (Hout_p : List.filter is_post (events out) = [])
    by apply perform_actions_posts.
  destruct (finish_lists env w followers following (log1 ++ log2) out)
    as (Hsf & Hsu & _ & _).
  pose proof (finish_events env w followers following (log1 ++ log2) out) as Hfin.
  cbv zeta in Hfin. unfold acted. rewrite Hsf, Hsu.
  set (message := format_telegram_report (now_strftime w) (followed out)
                    (unfollowed out) (final_stats followers following out)) in *.
  destruct (send_leaves_one_entry env (channel w) message) as [Hone Hpost].
  destruct (truthy_list (followed out) || truthy_list (unfollowed out)) eqn:Hacted.
  - destruct Hfin as (Hev & Hdel & Hmsg).
    apply acted_spec in Hacted.
    assert (Hbefore : send_entries ((log1 ++ log2) ++ events out) = 0%nat)
      by (rewrite send_entries_app; lia).
    assert (Hbefore_p : List.filter is_post ((log1 ++ log2) ++ events out) = [])
      by (by rewrite posts_app, Hlog_p, Hout_p).
    split_and!.
    + split; [done|]. intros _. rewrite Hev, send_entries_app. lia.
    + split; [|done]. rewrite Hev, send_entries_app. lia.
    + intros _. exists message, ((log1 ++ log2) ++ events out),
        (final_stats followers following out).
      split_and!; try done.
      * intros Hconf. rewrite Hev, posts_app, Hbefore_p, Hpost, Hconf. done.
      * intros Hconf.
        rewrite Hev, Hdel, (send_unconfigured env (channel w) message Hconf). done.
    + done.
    + intros Hconf. split.
      * rewrite Hev, posts_app, Hbefore_p, Hpost, Hconf. done.
      * intros. by apply send_unconfigured.
  - destruct Hfin as (Hev & Hdel & Hmsg).
    assert (Hnot : ¬ (followed out ≠ [] ∨ unfollowed out ≠ [])).
    { rewrite <- acted_spec, Hacted. discriminate. }
    assert (Hnone : send_entries (sum_events
              (finish env w followers following (log1 ++ log2) out)) = 0%nat)
      by (rewrite Hev, send_entries_app; lia).
    assert (Hnone_p : List.filter is_post (sum_events
              (finish env w followers following (log1 ++ log2) out)) = [])
      by (by rewrite Hev, posts_app, Hlog_p, Hout_p).
    split_and!.
    + rewrite Hnone. split; [discriminate|done].
    + by rewrite Hnone.
    + done.
    + done.
    + intros Hconf. split; [done|]. intros. by apply send_unconfigured.
Qed.

End RunNotification.

Lemma notification_policy_witness :
  ∃ s message,
    sync_followers 3 source_settings sample_env_telegram sample_world
    = Some (Returned s)
    ∧ sum_followed s = ["alice"]
    ∧ send_entries (sum_events s) = 1%nat
    ∧ sum_message s = Some message
    ∧ List.filter is_post (sum_events s)
      = [HttpPost "https://api.telegram.org/botbot/sendMessage" "42" message].
Proof.
  destruct (sync_followers 3 source_settings sample_env_telegram sample_world)
    as [[s|]|] eqn:Hrun; try (vm_compute in Hrun; discriminate Hrun).
  assert (Hfollowed : sum_followed s = ["alice"])
    by (vm_compute in Hrun; by injection Hrun as <-).
  assert (Hacted : sum_followed s ≠ [] ∨ sum_unfollowed s ≠ [])
    by (left; by rewrite Hfollowed).
  destruct (notification_policy 3 source_settings sample_env_telegram sample_world
              s Hrun) as (Hone & _ & Hsend & _).
  destruct (Hsend Hacted)
    as (message & before & stats & _ & Hmsg & _ & _ & _ & _ & Hpost & _).
  exists s, message. split_and!; [reflexivity|exact Hfollowed| |exact Hmsg|].
  - by apply Hone.
  - apply Hpost. reflexivity.
Defined.

(* ==================== THE POLICY FILES AS TEXT ==================== *)

Section PolicyText.
Implicit Types (s line content pre post x : list N) (c : N) (b : bool).

Local Abbreviation blank := (λ c : N, Unicode.isspace c = true).

(** [lstrip] removes a prefix of blanks and stops at the first character
    that is not one. *)
Lemma lstrip_split s :
  ∃ pre, s = pre ++ Unicode.lstrip s ∧ Forall blank pre
         ∧ ∀ c, head (Unicode.lstrip s) = Some c → Unicode.isspace c = false.
Proof.
  induction s as [|c s (pre & Hs & Hpre & Hhead)]; simpl.
  - exists []. split_and!; [done|constructor|done].
  - destruct (Unicode.isspace c) eqn:Hc.
    + exists (c :: pre). split_and!; [by rewrite Hs at 1|by constructor|done].
    + exists []. split_and!; [done|constructor|].
      intros c' [= <-]. exact Hc.
Qed.

(** [rstrip] removes a suffix of blanks, leaves the front as it is and
    stops at the last character that is not a blank. *)
Lemma rstrip_split s :
  ∃ post, s = Unicode.rstrip s ++ post ∧ Forall blank post
          ∧ (∀ c, last (Unicode.rstrip s) = Some c → Unicode.isspace c = false)
          ∧ ((∀ c, head s = Some c → Unicode.isspace c = false) →
             ∀ c, head (Unicode.rstrip s) = Some c → Unicode.isspace c = false).
Proof.
  induction s as [|c s (post & Hs & Hpost & Hlast & _)]; simpl.
  - exists []. split_and!; [done|constructor|done|done].
  - destruct (Unicode.rstrip s) as [|d r] eqn:Hr.
    + destruct (Unicode.isspace c) eqn:Hc.
      * exists (c :: post). simpl in Hs. subst post.
        split_and!; [done|by constructor|done|done].
      * exists post. simpl in Hs. subst post.
        split_and!; [done|done| |].
        -- intros c' [= <-]. exact Hc.
        -- intros _ c' [= <-]. exact Hc.
    + exists post. split_and!; [by rewrite Hs at 1|done| |].
      * intros c'. rewrite last_cons. destruct (last (d :: r)) eqn:Hl.
        -- intros [= <-]. by apply Hlast.
        -- by apply last_None in Hl.
      * intros Hhead c' [= <-]. by apply Hhead.
Qed.

(** What trimming is: the text is a run of blanks, then [strip] of the
    text, then a run of blanks, and [strip] of the text neither begins nor
    ends with a blank. *)
Lemma strip_split s :
  ∃ pre post,
    s = pre ++ Unicode.strip s ++ post
    ∧ Forall blank pre ∧ Forall blank post
    ∧ (∀ c, head (Unicode.strip s) = Some c → Unicode.isspace c = false)
    ∧ (∀ c, last (Unicode.strip s) = Some c → Unicode.isspace c = false).
Proof.
  destruct (lstrip_split s) as (pre & Hs & Hpre & Hhead).
  destruct (rstrip_split (Unicode.lstrip s)) as (post & Hl & Hpost & Hlast & Hkeep).
  exists pre, post. unfold Unicode.strip.
  split_and!; [by rewrite <- Hl|done|done|by apply Hkeep|done].
Qed.

Lemma translate_no_CR b s : Unicode.CR ∉ Unicode.translate_newlines b s.
Proof.
  revert b. induction s as [|c s IH]; intros b; simpl.
  - apply not_elem_of_nil.
  - destruct (N.eqb_spec c Unicode.CR) as [->|Hc].
    + apply not_elem_of_cons. split; [done|apply IH].
    + destruct ((c =? Unicode.LF)%N && b); [apply IH|].
      apply not_elem_of_cons. split; [congruence|apply IH].
Qed.

Lemma translate_without_CR s :
  Unicode.CR ∉ s → Unicode.translate_newlines false s = s.
Proof.
  induction s as [|c s IH]; simpl; [done|].
  intros [Hc Hs]%not_elem_of_cons.
  destruct (N.eqb_spec c Unicode.CR) as [->|_]; [done|].
  rewrite andb_false_r. by rewrite IH.
Qed.

(** A CR LF pair and a lone CR both come out as one LF. *)
Lemma translate_CR b s1 s2 :
  Unicode.translate_newlines b (s1 ++ Unicode.CR :: s2)
  = Unicode.translate_newlines b s1
    ++ Unicode.LF :: Unicode.translate_newlines true s2.
Proof.
  revert b. induction s1 as [|c s1 IH]; intros b; simpl; [done|].
  destruct (c =? Unicode.CR)%N; [by rewrite IH|].
  destruct ((c =? Unicode.LF)%N && b); by rewrite IH.
Qed.

Lemma universal_newlines_CRLF s1 s2 :
  Unicode.universal_newlines (s1 ++ [Unicode.CR; Unicode.LF] ++ s2)
  = Unicode.universal_newlines s1 ++ [Unicode.LF] ++ Unicode.universal_newlines s2.
Proof. unfold Unicode.universal_newlines. cbn [app]. by rewrite translate_CR. Qed.

Lemma universal_newlines_CR s1 s2 :
  head s2 ≠ Some Unicode.LF →
  Unicode.universal_newlines (s1 ++ [Unicode.CR] ++ s2)
  = Unicode.universal_newlines s1 ++ [Unicode.LF] ++ Unicode.universal_newlines s2.
Proof.
  intros Hhead. unfold Unicode.universal_newlines. cbn [app]. rewrite translate_CR.
  do 2 f_equal. destruct s2 as [|c s2]; simpl; [done|].
  destruct (c =? Unicode.CR)%N; [done|].
  destruct (N.eqb_spec c Unicode.LF) as [->|_]; [by destruct Hhead|done].
Qed.

(** The lines, put together again, are the text. *)
Lemma concat_splitlines_keep s : concat (Unicode.splitlines_keep s) = s.
Proof.
  induction s as [|c s IH]; simpl; [done|].
  destruct (c =? Unicode.LF)%N.
  - simpl. by rewrite IH.
  - destruct (Unicode.splitlines_keep s) as [|l ls]; simpl in *; by rewrite <- IH.
Qed.

(** Every piece is a line. *)
Lemma splitlines_keep_lines s : Forall Unicode.is_line (Unicode.splitlines_keep s).
Proof.
  induction s as [|c s IH]; simpl; [constructor|].
  destruct (N.eqb_spec c Unicode.LF) as [->|Hc].
  - constructor; [|exact IH]. split; [done|].
    intros [|d pre] post Heq; simplify_eq/=; [done|].
    by destruct pre.
  - destruct (Unicode.splitlines_keep s) as [|l ls].
    + constructor; [|constructor]. split; [done|].
      intros [|d pre] post Heq; simplify_eq/=. by destruct pre.
    + apply Forall_cons in IH as [[Hne Hl] Hls]. constructor; [|exact Hls].
      split; [done|]. intros [|d pre] post Heq; simplify_eq/=.
      by apply (Hl pre).
Qed.

(** Every line but the last ends with an LF. *)
Lemma splitlines_keep_ends s (i : nat) line :
  Unicode.splitlines_keep s !! i = Some line →
  (S i < length (Unicode.splitlines_keep s))%nat →
  last line = Some Unicode.LF.
Proof.
  revert i line. induction s as [|c s IH]; intros i line; simpl; [done|].
  destruct (N.eqb_spec c Unicode.LF) as [->|Hc].
  - destruct i as [|i]; simpl.
    + by intros [= <-].
    + intros Hi Hlen. apply (IH i); [done|lia].
  - pose proof (splitlines_keep_lines s) as Hlines.
    destruct (Unicode.splitlines_keep s) as [|l ls]; simpl.
    + destruct i; simpl; [lia|done].
    + apply Forall_cons in Hlines as [[Hne _] _].
      destruct i as [|i]; simpl.
      * intros [= <-] Hlen. rewrite last_cons.
        rewrite (IH 0%nat l eq_refl) by (simpl; lia). done.
      * intros Hi Hlen. apply (IH (S i)); [done|simpl; lia].
Qed.

Lemma truthy_nonempty s : Unicode.truthy s = true ↔ s ≠ [].
Proof. destruct s; simpl; split; intros; congruence. Qed.

Lemma startswith_number_sign line :
  Unicode.startswith line [Unicode.NUMBER_SIGN] = true
  ↔ head line = Some Unicode.NUMBER_SIGN.
Proof.
  destruct line as [|c line]; [done|].
  cbn [Unicode.startswith head]. rewrite andb_true_r, N.eqb_eq.
  split; [by intros <-|by intros [= <-]].
Qed.

Lemma kept_spec line :
  Unicode.kept line = true
  ↔ Unicode.strip line ≠ [] ∧ head line ≠ Some Unicode.NUMBER_SIGN.
Proof.
  unfold Unicode.kept.
  rewrite andb_true_iff, negb_true_iff, truthy_nonempty,
    <- startswith_number_sign, not_true_iff_false. done.
Qed.

(** C4.  For every text of a policy file and every lower-casing function,
    the loader returns exactly the lower-cased trimmed forms of the lines
    that are kept, a line being skipped when it is empty once trimmed or
    when it starts with [#]; without a file it returns the empty set.
    Here trimming removes the blanks at both ends and nothing else, a
    blank being any character of [str.isspace]; and the lines are the
    pieces of the text, after CR LF and CR have been turned into LF, that
    end with each LF, the rest after the last LF being a line too. *)
Theorem load_list_file_spec (str_lower : list N → list N) :
  Unicode.load_list_file str_lower None = ∅
  ∧ (∀ content x,
       x ∈ Unicode.load_list_file str_lower (Some content)
       ↔ ∃ line, line ∈ Unicode.file_lines content
                 ∧ Unicode.strip line ≠ []
                 ∧ head line ≠ Some Unicode.NUMBER_SIGN
                 ∧ x = str_lower (Unicode.strip line))
  ∧ (∀ s, ∃ pre post,
       s = pre ++ Unicode.strip s ++ post
       ∧ Forall blank pre ∧ Forall blank post
       ∧ (∀ c, head (Unicode.strip s) = Some c → Unicode.isspace c = false)
       ∧ (∀ c, last (Unicode.strip s) = Some c → Unicode.isspace c = false))
  ∧ (∀ content,
       concat (Unicode.file_lines content) = Unicode.universal_newlines content
       ∧ Forall Unicode.is_line (Unicode.file_lines content)
       ∧ ∀ (i : nat) line,
           Unicode.file_lines content !! i = Some line →
           (S i < length (Unicode.file_lines content))%nat →
           last line = Some Unicode.LF)
  ∧ (∀ content,
       Unicode.CR ∉ Unicode.universal_newlines content
       ∧ (Unicode.CR ∉ content → Unicode.universal_newlines content = content))
  ∧ (∀ s1 s2,
       Unicode.universal_newlines (s1 ++ [Unicode.CR; Unicode.LF] ++ s2)
       = Unicode.universal_newlines s1 ++ [Unicode.LF]
         ++ Unicode.universal_newlines s2)
  ∧ (∀ s1 s2, head s2 ≠ Some Unicode.LF →
       Unicode.universal_newlines (s1 ++ [Unicode.CR] ++ s2)
       = Unicode.universal_newlines s1 ++ [Unicode.LF]
         ++ Unicode.universal_newlines s2).
Proof.
  split_and!.
  - reflexivity.
  - intros content x. unfold Unicode.load_list_file.
    rewrite elem_of_list_to_set, list_elem_of_In, in_map_iff. split.
    + intros (line & <- & [Hin Hkept]%filter_In).
      apply kept_spec in Hkept as [Hne Hhash].
      exists line. by rewrite list_elem_of_In.
    + intros (line & Hin & Hne & Hhash & ->). exists line. split; [done|].
      apply filter_In. split; [by apply list_elem_of_In|by apply kept_spec].
  - apply strip_split.
  - intros content. unfold Unicode.file_lines. split_and!.
    + apply concat_splitlines_keep.
    + apply splitlines_keep_lines.
    + apply splitlines_keep_ends.
  - intros content. split; [apply translate_no_CR|apply translate_without_CR].
  - apply universal_newlines_CRLF.
  - apply universal_newlines_CR.
Qed.

End PolicyText.

(** The sample policy file loads as [alice], [bob] and [#carol]: the
    no-break space and the other blanks are trimmed, the three kinds of
    line ends all end a line, the comment and the empty line are skipped,
    and the indented marker is kept. *)
Lemma sample_text_loads :
  Unicode.file_lines Unicode.sample_text
  = [Unicode.of_string "  Alice" ++ [160; 10]%N;
     Unicode.of_string "# note" ++ [10]%N;
     [10]%N;
     [8195; 9]%N ++ Unicode.of_string "BOB" ++ [12288; 10]%N;
     Unicode.of_string "  #carol"]
  ∧ Unicode.load_list_file Unicode.lower_ascii (Some Unicode.sample_text)
    = {[Unicode.of_string "alice"; Unicode.of_string "bob";
        Unicode.of_string "#carol"]}.
Proof.
  split; [reflexivity|]. apply set_eq. intros x. vm_compute. set_solver.
Qed.

Lemma load_list_file_spec_witness :
  Unicode.of_string "alice"
  ∈ Unicode.load_list_file Unicode.lower_ascii (Some Unicode.sample_text)
  ∧ Unicode.universal_newlines (Unicode.of_string "a" ++ [13]%N ++ Unicode.of_string "b")
    = Unicode.of_string "a" ++ [10]%N ++ Unicode.of_string "b".
Proof.
  destruct (load_list_file_spec Unicode.lower_ascii)
    as (_ & Hmem & _ & _ & _ & _ & Hcr).
  split.
  - apply Hmem. exists (Unicode.of_string "  Alice" ++ [160; 10]%N).
    split_and!.
    + vm_compute. apply list_elem_of_here.
    + vm_compute. discriminate.
    + vm_compute. discriminate.
    + reflexivity.
  - apply (Hcr (Unicode.of_string "a") (Unicode.of_string "b")).
    vm_compute. discriminate.
Defined.

(* ==================== THE TWO MODELS OF TEXT ==================== *)

(** On ASCII text the loader of the run, over strings, and the loader over
    code points are the same function. *)
Section TextModels.
Implicit Types (s line content : string) (c d : ascii).

Lemma of_string_cons c s :
  Unicode.of_string (String c s) = N_of_ascii c :: Unicode.of_string s.
Proof. reflexivity. Qed.

Lemma N_of_ascii_eqb c d : (N_of_ascii c =? N_of_ascii d)%N = Ascii.eqb c d.
Proof.
  destruct (Ascii.eqb_spec c d) as [->|Hne]; [apply N.eqb_refl|].
  apply N.eqb_neq. intros Heq. apply Hne.
  by rewrite <- (ascii_N_embedding c), <- (ascii_N_embedding d), Heq.
Qed.

Lemma of_string_inj s1 s2 : Unicode.of_string s1 = Unicode.of_string s2 → s1 = s2.
Proof.
  revert s2. induction s1 as [|c s1 IH]; intros [|d s2]; try done.
  rewrite !of_string_cons. intros [= Hc Hs]. f_equal; [|by apply IH].
  by rewrite <- (ascii_N_embedding c), <- (ascii_N_embedding d), Hc.
Qed.

Lemma isspace_agree c :
  (N_of_ascii c < 128)%N → Unicode.isspace (N_of_ascii c) = isspace c.
Proof.
  unfold Unicode.isspace, isspace. generalize (N_of_ascii c). intros n Hn.
  replace (n =? 133)%N with false by (symmetry; apply N.eqb_neq; lia).
  replace (n =? 160)%N with false by (symmetry; apply N.eqb_neq; lia).
  replace (n =? 5760)%N with false by (symmetry; apply N.eqb_neq; lia).
  replace (8192 <=? n)%N with false by (symmetry; apply N.leb_gt; lia).
  replace (n =? 8232)%N with false by (symmetry; apply N.eqb_neq; lia).
  replace (n =? 8233)%N with false by (symmetry; apply N.eqb_neq; lia).
  replace (n =? 8239)%N with false by (symmetry; apply N.eqb_neq; lia).
  replace (n =? 8287)%N with false by (symmetry; apply N.eqb_neq; lia).
  replace (n =? 12288)%N with false by (symmetry; apply N.eqb_neq; lia).
  simpl. by rewrite !orb_false_r.
Qed.

Lemma is_ascii_cons c s :
  is_ascii (String c s) ↔ (N_of_ascii c < 128)%N ∧ is_ascii s.
Proof.
  unfold is_ascii. simpl.
  apply (Forall_cons (λ a : ascii, (N_of_ascii a < 128)%N)).
Qed.

Lemma lstrip_agree s :
  is_ascii s → Unicode.lstrip (Unicode.of_string s) = Unicode.of_string (lstrip s).
Proof.
  induction s as [|c s IH]; [done|]. intros [Hc Hs]%is_ascii_cons.
  rewrite of_string_cons. simpl. rewrite (isspace_agree c Hc).
  destruct (isspace c); [by apply IH|done].
Qed.

Lemma lstrip_ascii s : is_ascii s → is_ascii (lstrip s).
Proof.
  induction s as [|c s IH]; [done|]. intros Hcs. simpl.
  destruct (isspace c); [|done]. apply IH. by apply is_ascii_cons in Hcs as [_ ?].
Qed.

Lemma rstrip_agree s :
  is_ascii s → Unicode.rstrip (Unicode.of_string s) = Unicode.of_string (rstrip s).
Proof.
  induction s as [|c s IH]; [done|]. intros [Hc Hs]%is_ascii_cons.
  rewrite of_string_cons. simpl. rewrite (IH Hs), (isspace_agree c Hc).
  destruct (rstrip s) as [|d r]; simpl; [by destruct (isspace c)|done].
Qed.

Lemma strip_agree s :
  is_ascii s → Unicode.strip (Unicode.of_string s) = Unicode.of_string (strip s).
Proof.
  intros Hs. unfold Unicode.strip, strip.
  rewrite (lstrip_agree s Hs). by apply rstrip_agree, lstrip_ascii.
Qed.

Lemma lower_agree s : Unicode.lower_ascii (Unicode.of_string s) = Unicode.of_string (lower s).
Proof.
  induction s as [|c s IH]; [done|].
  rewrite of_string_cons. simpl. unfold Unicode.lower_ascii in *. simpl.
  rewrite IH, of_string_cons. f_equal. unfold lower_ascii.
  destruct c as [[] [] [] [] [] [] [] []]; reflexivity.
Qed.

Lemma truthy_agree s : Unicode.truthy (Unicode.of_string s) = truthy s.
Proof. by destruct s. Qed.

Lemma startswith_agree s :
  Unicode.startswith (Unicode.of_string s) [Unicode.NUMBER_SIGN] = startswith s "#".
Proof.
  destruct s as [|c s]; [done|]. rewrite of_string_cons.
  cbn [Unicode.startswith]. rewrite andb_true_r.
  change Unicode.NUMBER_SIGN with (N_of_ascii "#"%char).
  rewrite N_of_ascii_eqb. unfold startswith. cbn [String.prefix].
  destruct (ascii_dec "#"%char c) as [<-|Hne].
  - rewrite Ascii.eqb_refl. by destruct s.
  - by apply Ascii.eqb_neq.
Qed.

(** The two newline translations are one. *)
Lemma universal_newlines_agree s :
  Unicode.translate_newlines false (Unicode.of_string s)
  = Unicode.of_string (universal_newlines s)
  ∧ Unicode.translate_newlines true (Unicode.of_string s)
    = Unicode.of_string (after_CR s).
Proof.
  induction s as [|c s [IH1 IH2]]; [done|].
  rewrite of_string_cons. cbn [Unicode.translate_newlines].
  change Unicode.CR with (N_of_ascii Text.CR).
  change Unicode.LF with (N_of_ascii Text.LF).
  rewrite !N_of_ascii_eqb. cbn [universal_newlines after_CR].
  destruct (Ascii.eqb c Text.CR) eqn:Hcr.
  - apply Ascii.eqb_eq in Hcr as ->. change (Ascii.eqb Text.CR Text.LF) with false.
    cbv iota. rewrite of_string_cons, IH2. split; [|done].
    by destruct s.
  - rewrite andb_false_r. destruct (Ascii.eqb c Text.LF); simpl;
      rewrite ?of_string_cons, IH1; done.
Qed.

Lemma splitlines_keep_agree s :
  Unicode.splitlines_keep (Unicode.of_string s)
  = Unicode.of_string <$> splitlines_keep s.
Proof.
  induction s as [|c s IH]; [done|].
  rewrite of_string_cons. cbn [Unicode.splitlines_keep splitlines_keep].
  change Unicode.LF with (N_of_ascii Text.LF). rewrite N_of_ascii_eqb, IH.
  destruct (Ascii.eqb c Text.LF); [done|].
  by destruct (splitlines_keep s).
Qed.

Lemma file_lines_agree content :
  Unicode.file_lines (Unicode.of_string content)
  = Unicode.of_string <$> file_lines content.
Proof.
  unfold Unicode.file_lines, file_lines, Unicode.universal_newlines.
  destruct (universal_newlines_agree content) as [-> _].
  apply splitlines_keep_agree.
Qed.

Lemma universal_newlines_ascii s :
  is_ascii s → is_ascii (universal_newlines s) ∧ is_ascii (after_CR s).
Proof.
  induction s as [|c s IH]; [done|]. intros [Hc Hs]%is_ascii_cons.
  destruct (IH Hs) as [IH1 IH2]. cbn [universal_newlines after_CR].
  assert (Hfirst : is_ascii (universal_newlines (String c s))).
  { cbn [universal_newlines]. destruct (Ascii.eqb c Text.CR).
    - apply is_ascii_cons. split; [by vm_compute|]. by destruct s.
    - by apply is_ascii_cons. }
  split; [exact Hfirst|]. by destruct (Ascii.eqb c Text.LF).
Qed.

Lemma splitlines_keep_ascii s : is_ascii s → Forall is_ascii (splitlines_keep s).
Proof.
  induction s as [|c s IH]; [constructor|]. intros [Hc Hs]%is_ascii_cons.
  specialize (IH Hs). simpl. destruct (Ascii.eqb c Text.LF).
  - constructor; [|done]. apply is_ascii_cons. split; [done|constructor].
  - destruct (splitlines_keep s) as [|l ls].
    + constructor; [|done]. apply is_ascii_cons. split; [done|constructor].
    + apply Forall_cons in IH as [Hl Hls]. constructor; [|done].
      by apply is_ascii_cons.
Qed.

Lemma loaded_lines_agree (lines : list string) :
  Forall is_ascii lines →
  map (λ l : list N, Unicode.lower_ascii (Unicode.strip l))
    (List.filter Unicode.kept (Unicode.of_string <$> lines))
  = Unicode.of_string
    <$> map (λ line, lower (strip line))
          (List.filter (λ line, truthy (strip line) && negb (startswith line "#"))
             lines).
Proof.
  induction lines as [|line lines IH]; [done|].
  intros [Hline Hlines]%Forall_cons. specialize (IH Hlines).
  rewrite fmap_cons. cbn [List.filter]. unfold Unicode.kept at 1.
  rewrite (strip_agree line Hline), truthy_agree, startswith_agree.
  destruct (truthy (strip line) && negb (startswith line "#")); [|exact IH].
  cbn [map fmap list_fmap]. rewrite (strip_agree line Hline), lower_agree.
  f_equal. exact IH.
Qed.

(** On an ASCII file the set that the run loads is, character by
    character, the set of the code-point model under ASCII lower-casing. *)
Lemma loaders_agree_on_ascii content (y : list N) :
  is_ascii content →
  y ∈ Unicode.load_list_file Unicode.lower_ascii (Some (Unicode.of_string content))
  ↔ ∃ x, y = Unicode.of_string x ∧ x ∈ load_list_file (Some content).
Proof.
  intros Hcontent. unfold Unicode.load_list_file, load_list_file.
  rewrite file_lines_agree, loaded_lines_agree.
  - rewrite elem_of_list_to_set, list_elem_of_fmap.
    by setoid_rewrite elem_of_list_to_set.
  - unfold file_lines. apply splitlines_keep_ascii.
    by apply universal_newlines_ascii.
Qed.

End TextModels.
